(** * The documentation indexer of docs-mcp-server (indexer.ts, types.ts)

    A shallow embedding of [DocumentIndexer]: the build pass
    ([buildIndex], [findMarkdownFiles], [indexDocument], [indexKeywords],
    [buildTfIdfIndex], [buildRelationships]) and the queries
    ([getDocument], [search], [getRelatedDocuments], [getCategories],
    [getTags]); and of what the tool handlers of [DocsServer] (index.ts)
    compute from them ([searchDocs], [getDocument], [getRelatedDocs],
    [extractExcerpt]).

    Modelling choices.
    - Strings are [string]; the text is taken to be ASCII, so that
      [length] is JavaScript's [.length] and case folding is the ASCII one.
    - A JavaScript [Map] is an association list in insertion order, a
      [Set] a duplicate-free list in insertion order.
    - Frontmatter is untyped at run time: [matter(content).data] is spread
      over the metadata object, so a metadata field holds whatever YAML
      value the file gave.  Such values are [JsValue]s, and the operations
      applied to them ([for ... of], [?.filter], [?.includes], [?.some],
      [.toLowerCase()], template strings, [===]) follow JavaScript,
      including the [TypeError]s they throw.
    - YAML numbers are integers here and YAML timestamps are left out;
      search scores (sums of TF-IDF weights, which are doubles in the
      program) are exact rationals.
    - The libraries the indexer calls (Node's [path], gray-matter, natural's
      [WordTokenizer] and [TfIdf]) are the fields of a [Platform].
    - The file system a build walks is a tree value, [FsNode]. *)

From Stdlib Require Import List String Ascii Bool Arith ZArith QArith Lia Lqa.
From Stdlib Require Import DecimalString Sorted Permutation.
Import ListNotations.

Local Open Scope string_scope.
Local Open Scope list_scope.

Set Warnings "-register-all".

(** ** Strings *)

Module Str.

Definition isUpper (c : ascii) : bool :=
  let n := nat_of_ascii c in (65 <=? n)%nat && (n <=? 90)%nat.

Definition isLower (c : ascii) : bool :=
  let n := nat_of_ascii c in (97 <=? n)%nat && (n <=? 122)%nat.

Definition isDigit (c : ascii) : bool :=
  let n := nat_of_ascii c in (48 <=? n)%nat && (n <=? 57)%nat.

Definition lowerChar (c : ascii) : ascii :=
  if isUpper c then ascii_of_nat (nat_of_ascii c + 32) else c.

Definition upperChar (c : ascii) : ascii :=
  if isLower c then ascii_of_nat (nat_of_ascii c - 32) else c.

(** The characters [\s] matches and [trim] strips, within ASCII:
    tab, line feed, vertical tab, form feed, carriage return, space. *)
Definition isSpace (c : ascii) : bool :=
  let n := nat_of_ascii c in ((9 <=? n)%nat && (n <=? 13)%nat) || (n =? 32)%nat.

Fixpoint mapChars (f : ascii -> ascii) (s : string) : string :=
  match s with
  | EmptyString => EmptyString
  | String c s' => String (f c) (mapChars f s')
  end.

Definition toLowerCase : string -> string := mapChars lowerChar.

(** [hay.includes(needle)] *)
Fixpoint includes (hay needle : string) : bool :=
  prefix needle hay ||
  match hay with
  | EmptyString => false
  | String _ hay' => includes hay' needle
  end.

Fixpoint rev_acc (s acc : string) : string :=
  match s with
  | EmptyString => acc
  | String c s' => rev_acc s' (String c acc)
  end.

Definition rev (s : string) : string := rev_acc s EmptyString.

(** [s.endsWith(suffix)] *)
Definition endsWith (s suffix : string) : bool := prefix (rev suffix) (rev s).

Fixpoint dropWhile (p : ascii -> bool) (s : string) : string :=
  match s with
  | EmptyString => EmptyString
  | String c s' => if p c then dropWhile p s' else s
  end.

(** [s.trim()] *)
Definition trim (s : string) : string :=
  rev (dropWhile isSpace (rev (dropWhile isSpace s))).

(** [s.slice(0, n)] for [n >= 0] *)
Definition take (n : nat) (s : string) : string := substring 0 n s.

(** [s.slice(n)] for [n >= 0] *)
Fixpoint drop (n : nat) (s : string) : string :=
  match n, s with
  | O, _ => s
  | S _, EmptyString => EmptyString
  | S n', String _ s' => drop n' s'
  end.

(** [s.split(sep)] for a separator string.  [skip] counts the characters
    of a separator occurrence still to be passed over; [cur] is the piece
    being read, reversed. *)
Fixpoint splitFrom (sep : string) (s : string) (cur : string) (skip : nat)
  : list string :=
  match s with
  | EmptyString => [rev cur]
  | String c s' =>
      match skip with
      | S k => splitFrom sep s' cur k
      | O =>
          if prefix sep s
          then rev cur :: splitFrom sep s' EmptyString (length sep - 1)
          else splitFrom sep s' (String c cur) 0
      end
  end.

Definition chars (s : string) : list string :=
  map (fun c => String c EmptyString) (list_ascii_of_string s).

Definition split (sep s : string) : list string :=
  match sep with
  | EmptyString => chars s
  | _ => splitFrom sep s EmptyString 0
  end.

(** [word.charAt(0).toUpperCase() + word.slice(1)] *)
Definition capitalize (word : string) : string :=
  match word with
  | EmptyString => EmptyString
  | String c rest => String (upperChar c) rest
  end.

(** [s.replace(/^#+\s+/, '')] *)
Definition stripHeading (s : string) : string :=
  match s with
  | String "#" _ =>
      let afterHashes := dropWhile (Ascii.eqb "#") s in
      match afterHashes with
      | String c _ =>
          if isSpace c then dropWhile isSpace afterHashes else s
      | EmptyString => s
      end
  | _ => s
  end.

(** [s.replace(/^\.\.?\//, '')] *)
Definition stripDotSlash (s : string) : string :=
  match s with
  | String "." (String "/" rest) => rest
  | String "." (String "." (String "/" rest)) => rest
  | _ => s
  end.

End Str.

(** ** Markdown links: [/\[([^\]]+)\]\(([^)]+\.md)\)/g]

    [matchLinkAt s] matches the expression at the head of [s] and gives
    the second group with the length of the whole match.  Both negated
    classes are followed by the one character they exclude, so a match at
    a given position is unique. *)

Module Link.

Fixpoint span (p : ascii -> bool) (s : list ascii) : list ascii * list ascii :=
  match s with
  | [] => ([], [])
  | c :: s' =>
      if p c then let (a, b) := span p s' in (c :: a, b) else ([], s)
  end.

Definition notChar (x c : ascii) : bool := negb (Ascii.eqb c x).

Definition matchLinkAt (s : list ascii) : option (string * nat) :=
  match s with
  | "["%char :: s1 =>
      let (text, s2) := span (notChar "]") s1 in
      match text, s2 with
      | _ :: _, "]"%char :: "("%char :: s3 =>
          let (target, s4) := span (notChar ")") s3 in
          match s4 with
          | ")"%char :: _ =>
              let t := string_of_list_ascii target in
              if Str.endsWith t ".md" && (4 <=? List.length target)%nat
              then Some (t, 4 + List.length text + List.length target)%nat
              else None
          | _ => None
          end
      | _, _ => None
      end
  | _ => None
  end.

(** The successive [linkRegex.exec(content)] results: the scan resumes
    after each match ([skip] characters still belong to the last one). *)
Fixpoint scan (s : list ascii) (skip : nat) : list string :=
  match s with
  | [] => []
  | _ :: s' =>
      match skip with
      | S k => scan s' k
      | O =>
          match matchLinkAt s with
          | Some (target, n) => target :: scan s' (n - 1)
          | None => scan s' 0
          end
      end
  end.

Definition targets (content : string) : list string :=
  scan (list_ascii_of_string content) 0.

End Link.

(** ** JavaScript values and exceptions *)

Inductive JsValue : Type :=
| JUndefined
| JNull
| JBool (b : bool)
| JNum (n : Z)
| JStr (s : string)
| JArr (items : list JsValue)
| JObj (fields : list (string * JsValue)).

Inductive Exn : Type :=
| TypeError      (* a call on a value that has no such method, [for ... of]
                    over a value that is not iterable, a path function given
                    a value that is not a string *)
| IOError        (* a rejected [fs] promise *)
| ParseError.    (* gray-matter could not read the frontmatter *)

Inductive Res (A : Type) : Type :=
| Ok (a : A)
| Throw (e : Exn).

Arguments Ok {A} a.
Arguments Throw {A} e.

Module Js.

Definition truthy (v : JsValue) : bool :=
  match v with
  | JUndefined | JNull => false
  | JBool b => b
  | JNum n => negb (n =? 0)%Z
  | JStr s => negb (s =? "")
  | JArr _ | JObj _ => true
  end.

(** [a || b] *)
Definition or (a b : JsValue) : JsValue := if truthy a then a else b.

Definition isArray (v : JsValue) : bool :=
  match v with JArr _ => true | _ => false end.

Definition isNullish (v : JsValue) : bool :=
  match v with JUndefined | JNull => true | _ => false end.

(** [a === b], which on these values is also the SameValueZero of
    [Map], [Set] and [Array.prototype.includes].  Arrays and objects are
    compared by identity: [same] tells whether the two values are read
    from one and the same object.  Values from the frontmatter of two
    files are never the same object. *)
Definition strictEquals (same : bool) (a b : JsValue) : bool :=
  match a, b with
  | JUndefined, JUndefined => true
  | JNull, JNull => true
  | JBool x, JBool y => Bool.eqb x y
  | JNum x, JNum y => (x =? y)%Z
  | JStr x, JStr y => (x =? y)
  | JArr _, JArr _ => same
  | JObj _, JObj _ => same
  | _, _ => false
  end.

(** String conversion, as a template literal does it. *)
Fixpoint toStr (v : JsValue) : string :=
  match v with
  | JUndefined => "undefined"
  | JNull => "null"
  | JBool true => "true"
  | JBool false => "false"
  | JNum n => NilZero.string_of_int (Z.to_int n)
  | JStr s => s
  | JArr items =>
      String.concat ","
        (map (fun x => if isNullish x then "" else toStr x) items)
  | JObj _ => "[object Object]"
  end.

(** The values [for (const x of v)] visits. *)
Definition iterate (v : JsValue) : Res (list JsValue) :=
  match v with
  | JArr items => Ok items
  | JStr s => Ok (map JStr (Str.chars s))
  | _ => Throw TypeError
  end.

(** Property read on an object literal; a missing key reads [undefined]. *)
Fixpoint prop (k : string) (o : list (string * JsValue)) : JsValue :=
  match o with
  | [] => JUndefined
  | (k', v) :: o' => if k =? k' then v else prop k o'
  end.

Fixpoint setProp (k : string) (v : JsValue) (o : list (string * JsValue))
  : list (string * JsValue) :=
  match o with
  | [] => [(k, v)]
  | (k', v') :: o' =>
      if k =? k' then (k', v) :: o' else (k', v') :: setProp k v o'
  end.

(** [{ ...o, ...src }] *)
Definition spread (o src : list (string * JsValue)) : list (string * JsValue) :=
  fold_left (fun acc kv => setProp (fst kv) (snd kv) acc) src o.

End Js.

(** ** [Map] and [Set] *)

Section Collections.

Variables K V : Type.
Variable keq : K -> K -> bool.

Fixpoint map_get (k : K) (m : list (K * V)) : option V :=
  match m with
  | [] => None
  | (k', v) :: m' => if keq k k' then Some v else map_get k m'
  end.

Definition map_has (k : K) (m : list (K * V)) : bool :=
  match map_get k m with Some _ => true | None => false end.

(** [m.set(k, v)]: an existing key keeps its place. *)
Fixpoint map_set (k : K) (v : V) (m : list (K * V)) : list (K * V) :=
  match m with
  | [] => [(k, v)]
  | (k', v') :: m' =>
      if keq k k' then (k', v) :: m' else (k', v') :: map_set k v m'
  end.

Definition set_has (x : K) (s : list K) : bool := existsb (keq x) s.

Definition set_add (x : K) (s : list K) : list K :=
  if set_has x s then s else s ++ [x].

End Collections.

Arguments map_get {K V} keq k m.
Arguments map_has {K V} keq k m.
Arguments map_set {K V} keq k v m.
Arguments set_has {K} keq x s.
Arguments set_add {K} keq x s.

(** [if (!m.has(k)) m.set(k, new Set()); m.get(k).add(x)] *)
Definition addToBucket {K : Type} (keq : K -> K -> bool) (k : K) (x : string)
  (m : list (K * list string)) : list (K * list string) :=
  match map_get keq k m with
  | Some s => map_set keq k (set_add String.eqb x s) m
  | None => map_set keq k (set_add String.eqb x []) m
  end.

(** ** Documents and the index (types.ts) *)

Record Document : Type := mkDocument {
  path : string;
  content : string;
  metadata : list (string * JsValue);
  lastModified : Q
}.

Record DocumentIndex : Type := mkIndex {
  documents : list (string * Document);
  keywords : list (string * list string);
  categories : list (JsValue * list string);
  tags : list (JsValue * list string);
  tfidf : list (string * list (string * Q));
  relationships : list (string * list string)
}.

Definition emptyIndex : DocumentIndex := mkIndex [] [] [] [] [] [].

(** ** What the indexer calls *)

Record Parsed : Type := mkParsed {
  parsed_data : list (string * JsValue);
  parsed_content : string
}.

Record Platform : Type := mkPlatform {
  (* Node's path module *)
  path_join : string -> string -> string;
  path_relative : string -> string -> string;
  path_isAbsolute : string -> bool;
  path_basename : string -> string -> string;
  path_sep : string;
  (* gray-matter; [None] when it throws *)
  matter : string -> option Parsed;
  (* natural: [new WordTokenizer().tokenize(text)] *)
  tokenize : string -> list string;
  (* natural: after [addDocument] of each text in turn, the
     [{term, tfidf}] items of [listTerms(docIndex)] *)
  listTerms : list string -> nat -> list (string * Q)
}.

(** ** The file system seen by one build *)

Inductive FsNode : Type :=
| FsFile (contents : option string) (mtimeMs : option Q)
    (* what [fs.readFile] and [fs.stat] resolve to; [None]: rejected *)
| FsDir (entries : option (list (string * FsNode)))
    (* what [fs.readdir] resolves to; [None]: rejected *)
| FsOther.
    (* an entry that is neither [isDirectory()] nor [isFile()];
       as a root: a path that does not exist *)

(** A markdown file found by the walk, with what reading it will give. *)
Record FoundFile : Type := mkFound {
  fullPath : string;
  readFile : option string;
  stat : option Q
}.

(** ** Index state with exceptions

    The indexer mutates [this.index]; a thrown exception leaves the
    mutations made so far in place. *)

Definition M (A : Type) : Type := DocumentIndex -> Res A * DocumentIndex.

Definition ret {A} (a : A) : M A := fun s => (Ok a, s).

Definition throw {A} (e : Exn) : M A := fun s => (Throw e, s).

Definition bind {A B} (m : M A) (f : A -> M B) : M B :=
  fun s =>
    match m s with
    | (Ok a, s') => f a s'
    | (Throw e, s') => (Throw e, s')
    end.

Definition lift {A} (r : Res A) : M A := fun s => (r, s).

Definition modify (f : DocumentIndex -> DocumentIndex) : M unit :=
  fun s => (Ok tt, f s).

Definition getIndex : M DocumentIndex := fun s => (Ok s, s).

(** [try { body } catch (error) { console.error(...) }] *)
Definition tryCatch (body : M unit) : M unit :=
  fun s =>
    match body s with
    | (Ok _, s') => (Ok tt, s')
    | (Throw _, s') => (Ok tt, s')
    end.

Declare Scope js_scope.
Delimit Scope js_scope with js.
Notation "x <- m ;; k" := (bind m (fun x => k))
  (at level 61, m at next level, right associativity) : js_scope.
Notation "m ;;; k" := (bind m (fun _ => k))
  (at level 61, right associativity) : js_scope.

Fixpoint forEach {A} (l : list A) (f : A -> M unit) : M unit :=
  match l with
  | [] => ret tt
  | x :: l' => bind (f x) (fun _ => forEach l' f)
  end.

Definition when (b : bool) (m : M unit) : M unit := if b then m else ret tt.

(** The same for computations that only read. *)
Definition rbind {A B} (r : Res A) (f : A -> Res B) : Res B :=
  match r with
  | Ok a => f a
  | Throw e => Throw e
  end.

Notation "x <-- r ;; k" := (rbind r (fun x => k))
  (at level 61, r at next level, right associativity) : js_scope.

Fixpoint foldRes {A S} (f : S -> A -> Res S) (l : list A) (s : S) : Res S :=
  match l with
  | [] => Ok s
  | x :: l' => rbind (f s x) (foldRes f l')
  end.

Fixpoint filterRes {A} (p : A -> Res bool) (l : list A) : Res (list A) :=
  match l with
  | [] => Ok []
  | x :: l' =>
      rbind (p x) (fun b =>
      rbind (filterRes p l') (fun rest =>
      Ok (if b then x :: rest else rest)))
  end.

Fixpoint existsRes {A} (p : A -> Res bool) (l : list A) : Res bool :=
  match l with
  | [] => Ok false
  | x :: l' => rbind (p x) (fun b => if b then Ok true else existsRes p l')
  end.

Fixpoint forallRes {A} (p : A -> Res bool) (l : list A) : Res bool :=
  match l with
  | [] => Ok true
  | x :: l' => rbind (p x) (fun b => if b then forallRes p l' else Ok false)
  end.

(** ** The indexer (indexer.ts) *)

Local Open Scope js_scope.

Section Indexer.

Variable P : Platform.

(** [this.docsPath] *)
Variable docsPath : string.

Definition getRelativePath (filePath : string) : string :=
  path_relative P docsPath filePath.

Definition normalizePath (docPath : string) : string :=
  if path_isAbsolute P docPath
  then getRelativePath docPath
  else Str.stripDotSlash docPath.

(** [normalizePath(rel)] on an element of a [related] list:
    [path.isAbsolute] throws on anything but a string. *)
Definition normalizePathOf (rel : JsValue) : Res string :=
  match rel with
  | JStr s => Ok (normalizePath s)
  | _ => Throw TypeError
  end.

Definition extractTitleFromPath (filePath : string) : string :=
  let basename := path_basename P filePath ".md" in
  String.concat " " (map Str.capitalize (Str.split "-" basename)).

Definition extractCategoryFromPath (filePath : string) : string :=
  let relativePath := getRelativePath filePath in
  let parts := Str.split (path_sep P) relativePath in
  if (1 <? List.length parts)%nat
  then nth (List.length parts - 2) parts ""
  else "general".

Fixpoint firstLongParagraph (paragraphs : list string) : string :=
  match paragraphs with
  | [] => ""
  | para :: rest =>
      let cleaned := Str.stripHeading (Str.trim para) in
      if (20 <? String.length cleaned)%nat
      then Str.take 200 cleaned
      else firstLongParagraph rest
  end.

Definition extractFirstParagraph (content : string) : string :=
  firstLongParagraph (Str.split (String "010" (String "010" "")) content).

(** *** findMarkdownFiles *)

Fixpoint findMarkdownFiles (dir : string) (node : FsNode) : list FoundFile :=
  match node with
  | FsDir (Some entries) =>
      (fix each (es : list (string * FsNode)) : list FoundFile :=
         match es with
         | [] => []
         | (name, entry) :: es' =>
             let fullPath := path_join P dir name in
             match entry with
             | FsDir _ => findMarkdownFiles fullPath entry
             | FsFile contents mtimeMs =>
                 if Str.endsWith name ".md"
                 then [mkFound fullPath contents mtimeMs]
                 else []
             | FsOther => []
             end ++ each es'
         end) entries
  | _ =>
      (* readdir rejected: "Warning: Could not read directory" *)
      []
  end.

(** *** indexDocument *)

Definition buildMetadata (filePath : string) (parsed : Parsed)
  : list (string * JsValue) :=
  let data := parsed_data parsed in
  Js.spread
    [ ("title", Js.or (Js.prop "title" data)
                  (JStr (extractTitleFromPath filePath)));
      ("tags", if Js.isArray (Js.prop "tags" data)
               then Js.prop "tags" data else JArr []);
      ("category", Js.or (Js.prop "category" data)
                     (JStr (extractCategoryFromPath filePath)));
      ("related", if Js.isArray (Js.prop "related" data)
                  then Js.prop "related" data else JArr []);
      ("summary", Js.or (Js.prop "summary" data)
                    (JStr (extractFirstParagraph (parsed_content parsed)))) ]
    data.

Definition title (doc : Document) : JsValue := Js.prop "title" (metadata doc).
Definition docTags (doc : Document) : JsValue := Js.prop "tags" (metadata doc).
Definition category (doc : Document) : JsValue := Js.prop "category" (metadata doc).
Definition related (doc : Document) : JsValue := Js.prop "related" (metadata doc).
Definition summary (doc : Document) : JsValue := Js.prop "summary" (metadata doc).

(** [`${doc.metadata.title} ${doc.metadata.summary} ${doc.content}`] *)
Definition docText (doc : Document) : string :=
  Js.toStr (title doc) ++ " " ++ Js.toStr (summary doc) ++ " " ++ content doc.

Definition setKeywords (f : list (string * list string) -> list (string * list string))
  (s : DocumentIndex) : DocumentIndex :=
  mkIndex (documents s) (f (keywords s)) (categories s) (tags s) (tfidf s)
    (relationships s).

Definition indexKeywords (doc : Document) : M unit :=
  let text := Str.toLowerCase (docText doc) in
  let tokens := tokenize P text in
  forEach tokens (fun token =>
    when (2 <? String.length token)%nat
      (modify (setKeywords (addToBucket String.eqb token (path doc))))).

Definition setDocument (doc : Document) (s : DocumentIndex) : DocumentIndex :=
  mkIndex (map_set String.eqb (path doc) doc (documents s)) (keywords s)
    (categories s) (tags s) (tfidf s) (relationships s).

Definition addCategory (c : JsValue) (p : string) (s : DocumentIndex)
  : DocumentIndex :=
  mkIndex (documents s) (keywords s)
    (addToBucket (Js.strictEquals false) c p (categories s)) (tags s)
    (tfidf s) (relationships s).

Definition addTag (t : JsValue) (p : string) (s : DocumentIndex)
  : DocumentIndex :=
  mkIndex (documents s) (keywords s) (categories s)
    (addToBucket (Js.strictEquals false) t p (tags s)) (tfidf s)
    (relationships s).

Definition indexDocument (file : FoundFile) : M unit :=
  tryCatch (
    content <- lift (match readFile file with
                     | Some c => Ok c | None => Throw IOError end) ;;
    mtimeMs <- lift (match stat file with
                     | Some t => Ok t | None => Throw IOError end) ;;
    parsed <- lift (match matter P content with
                    | Some p => Ok p | None => Throw ParseError end) ;;
    let metadata := buildMetadata (fullPath file) parsed in
    let doc := mkDocument (getRelativePath (fullPath file))
                 (parsed_content parsed) metadata mtimeMs in
    modify (setDocument doc) ;;;
    indexKeywords doc ;;;
    when (Js.truthy (category doc))
      (modify (addCategory (category doc) (path doc))) ;;;
    when (Js.truthy (docTags doc))
      (tagList <- lift (Js.iterate (docTags doc)) ;;
       forEach tagList (fun tag => modify (addTag tag (path doc))))).

(** *** buildTfIdfIndex *)

Definition termScores (items : list (string * Q)) : list (string * Q) :=
  fold_left (fun scores item => map_set String.eqb (fst item) (snd item) scores)
    items [].

Definition setTfidf (docPath : string) (scores : list (string * Q))
  (s : DocumentIndex) : DocumentIndex :=
  mkIndex (documents s) (keywords s) (categories s) (tags s)
    (map_set String.eqb docPath scores (tfidf s)) (relationships s).

Fixpoint withIndex {A} (i : nat) (l : list A) : list (A * nat) :=
  match l with
  | [] => []
  | x :: l' => (x, i) :: withIndex (S i) l'
  end.

Definition buildTfIdfIndex : M unit :=
  s <- getIndex ;;
  let texts := map (fun e => docText (snd e)) (documents s) in
  let docPaths := map fst (documents s) in
  forEach (withIndex 0 docPaths) (fun e =>
    let (docPath, docIndex) := e in
    modify (setTfidf docPath (termScores (listTerms P texts docIndex)))).

(** *** buildRelationships *)

(** [v?.includes(x)], read for its truth value. *)
Definition optIncludes (same : bool) (v x : JsValue) : Res bool :=
  match v with
  | JUndefined | JNull => Ok false
  | JArr items => Ok (existsb (Js.strictEquals same x) items)
  | JStr s => Ok (Str.includes s (Js.toStr x))
  | _ => Throw TypeError
  end.

(** [a?.filter(tag => b?.includes(tag)) || []] *)
Definition sharedTags (same : bool) (a b : JsValue) : Res (list JsValue) :=
  match a with
  | JUndefined | JNull => Ok []
  | JArr items => filterRes (fun tag => optIncludes same b tag) items
  | _ => Throw TypeError
  end.

Definition addIfDocument (docs : list (string * Document)) (p : string)
  (rel : list string) : list string :=
  if map_has String.eqb p docs then set_add String.eqb p rel else rel.

Definition explicitRelated (docs : list (string * Document)) (doc : Document)
  (rel0 : list string) : Res (list string) :=
  if Js.truthy (related doc)
  then
    rels <-- Js.iterate (related doc) ;;
    foldRes (fun rel r =>
               normalizedRel <-- normalizePathOf r ;;
               Ok (addIfDocument docs normalizedRel rel)) rels rel0
  else Ok rel0.

Definition implicitStep (docPath : string) (doc : Document)
  (rel : list string) (other : string * Document) : Res (list string) :=
  let (otherPath, otherDoc) := other in
  if otherPath =? docPath then Ok rel
  else
    let rel1 :=
      if Js.truthy (category doc) &&
         Js.strictEquals false (category doc) (category otherDoc)
      then set_add String.eqb otherPath rel else rel in
    shared <-- sharedTags false (docTags doc) (docTags otherDoc) ;;
    Ok (if (2 <=? List.length shared)%nat
        then set_add String.eqb otherPath rel1 else rel1).

Definition linkRelated (docs : list (string * Document)) (doc : Document)
  (rel0 : list string) : list string :=
  fold_left (fun rel target => addIfDocument docs (normalizePath target) rel)
    (Link.targets (content doc)) rel0.

Definition relatedOf (docs : list (string * Document)) (docPath : string)
  (doc : Document) : Res (list string) :=
  rel1 <-- explicitRelated docs doc [] ;;
  rel2 <-- foldRes (implicitStep docPath doc) docs rel1 ;;
  Ok (linkRelated docs doc rel2).

Definition setRelationships (docPath : string) (rel : list string)
  (s : DocumentIndex) : DocumentIndex :=
  mkIndex (documents s) (keywords s) (categories s) (tags s) (tfidf s)
    (map_set String.eqb docPath rel (relationships s)).

Definition buildRelationships : M unit :=
  s <- getIndex ;;
  forEach (documents s) (fun e =>
    let (docPath, doc) := e in
    rel <- lift (relatedOf (documents s) docPath doc) ;;
    modify (setRelationships docPath rel)).

(** *** buildIndex *)

Definition buildIndex (root : FsNode) : M unit :=
  modify (fun _ => emptyIndex) ;;;
  let files := findMarkdownFiles docsPath root in
  forEach files indexDocument ;;;
  buildTfIdfIndex ;;;
  buildRelationships.

End Indexer.

(** ** Queries *)

(** [entries.sort((a, b) => b[1] - a[1])]: a stable sort, larger scores
    first.  [before y x] says that [y] has the strictly larger score. *)
Section Sort.

Variable A : Type.
Variable before : A -> A -> bool.

Fixpoint insertDesc (x : A) (l : list A) : list A :=
  match l with
  | [] => [x]
  | y :: l' => if before y x then y :: insertDesc x l' else x :: l
  end.

Definition sortDesc (l : list A) : list A := fold_right insertDesc [] l.

End Sort.

Arguments insertDesc {A} before x l.
Arguments sortDesc {A} before l.

(** [l.slice(0, limit)] *)
Definition slice0 {A} (limit : Z) (l : list A) : list A :=
  if (limit <? 0)%Z
  then firstn (Z.to_nat (Z.of_nat (List.length l) + limit)) l
  else firstn (Z.to_nat limit) l.

Section Queries.

Variable P : Platform.
Variable idx : DocumentIndex.

Definition getDocument (docPath : string) : option Document :=
  map_get String.eqb docPath (documents idx).

(** *** search *)

(** [category && doc.metadata.category !== category] *)
Definition categoryMismatch (wanted : option string) (doc : Document) : bool :=
  match wanted with
  | Some c =>
      Js.truthy (JStr c) && negb (Js.strictEquals false (category doc) (JStr c))
  | None => false
  end.

(** [tags && tags.length > 0 && !tags.every(tag => doc.metadata.tags?.includes(tag))] *)
Definition tagsMissing (wanted : option (list string)) (doc : Document)
  : Res bool :=
  match wanted with
  | Some (t :: ts) =>
      hasAllTags <-- forallRes
        (fun tag => optIncludes false (docTags doc) (JStr tag)) (t :: ts) ;;
      Ok (negb hasAllTags)
  | _ => Ok false
  end.

Definition keywordHit (docPath token : string) : Q :=
  match map_get String.eqb token (keywords idx) with
  | Some paths => if set_has String.eqb docPath paths then 1 else 0
  | None => 0
  end.

(** [tfidfScores.get(token) || 0] *)
Definition tfidfWeight (tfidfScores : list (string * Q)) (token : string) : Q :=
  match map_get String.eqb token tfidfScores with
  | Some w => w
  | None => 0
  end.

(** [doc.metadata.title?.toLowerCase() || ''] *)
Definition titleLower (doc : Document) : Res string :=
  match title doc with
  | JUndefined | JNull => Ok ""
  | JStr s => Ok (Str.toLowerCase s)
  | _ => Throw TypeError
  end.

(** [tag.toLowerCase().includes(token)] *)
Definition tagContains (token : string) (tag : JsValue) : Res bool :=
  match tag with
  | JStr s => Ok (Str.includes (Str.toLowerCase s) token)
  | _ => Throw TypeError
  end.

(** [doc.metadata.tags?.some(tag => tag.toLowerCase().includes(token))] *)
Definition someTagContains (doc : Document) (token : string) : Res bool :=
  match docTags doc with
  | JUndefined | JNull => Ok false
  | JArr items => existsRes (tagContains token) items
  | _ => Throw TypeError
  end.

Definition addEach (f : string -> Q) (tokens : list string) (score : Q) : Q :=
  fold_left (fun sc token => sc + f token) tokens score.

(** The score one document accumulates for the query tokens. *)
Definition docScore (queryTokens : list string) (docPath : string)
  (doc : Document) : Res Q :=
  let score0 := addEach (keywordHit docPath) queryTokens 0 in
  let score1 :=
    match map_get String.eqb docPath (tfidf idx) with
    | Some tfidfScores => addEach (tfidfWeight tfidfScores) queryTokens score0
    | None => score0
    end in
  lower <-- titleLower doc ;;
  let score2 :=
    addEach (fun token => if Str.includes lower token then 5 else 0)
      queryTokens score1 in
  foldRes (fun sc token =>
             hit <-- someTagContains doc token ;;
             Ok (if hit then sc + 3 else sc)) queryTokens score2.

Definition searchStep (queryTokens : list string) (wantedCategory : option string)
  (wantedTags : option (list string)) (scores : list (string * Q))
  (entry : string * Document) : Res (list (string * Q)) :=
  let (docPath, doc) := entry in
  if categoryMismatch wantedCategory doc then Ok scores
  else
    missing <-- tagsMissing wantedTags doc ;;
    if missing then Ok scores
    else
      score <-- docScore queryTokens docPath doc ;;
      Ok (if Qlt_le_dec 0 score
          then map_set String.eqb docPath score scores
          else scores).

Definition higher {K} (a b : K * Q) : bool :=
  if Qlt_le_dec (snd b) (snd a) then true else false.

(** [tokenizer.tokenize(query.toLowerCase()) || []] *)
Definition queryTokens (query : string) : list string :=
  tokenize P (Str.toLowerCase query).

Definition search (query : string) (wantedCategory : option string)
  (wantedTags : option (list string)) : Res (list string) :=
  scores <-- foldRes (searchStep (queryTokens query) wantedCategory wantedTags)
               (documents idx) [] ;;
  Ok (map fst (sortDesc higher scores)).

(** *** getRelatedDocuments *)

Definition relatedScore (docPath relPath : string) : Res Z :=
  match map_get String.eqb relPath (documents idx),
        map_get String.eqb docPath (documents idx) with
  | Some relDoc, Some doc =>
      let same := relPath =? docPath in
      let score1 :=
        if Js.strictEquals same (category doc) (category relDoc)
        then (1 + 2)%Z else 1%Z in
      shared <-- sharedTags same (docTags doc) (docTags relDoc) ;;
      let score2 := (score1 + Z.of_nat (List.length shared))%Z in
      explicit <-- optIncludes false (related doc) (JStr relPath) ;;
      Ok (if explicit then (score2 + 5)%Z else score2)
  | _, _ => Ok 1%Z
  end.

Definition higherZ (a b : string * Z) : bool := (snd b <? snd a)%Z.

Definition getRelatedDocuments (docPath : string) (limit : Z)
  : Res (list string) :=
  match map_get String.eqb docPath (relationships idx) with
  | None | Some [] => Ok []
  | Some rel =>
      scores <-- foldRes (fun scores relPath =>
                            score <-- relatedScore docPath relPath ;;
                            Ok (map_set String.eqb relPath score scores))
                   rel [] ;;
      Ok (map fst (slice0 limit (sortDesc higherZ scores)))
  end.

End Queries.

(** *** getCategories, getTags *)


(** The default order of [Array.prototype.sort]: by the string forms of
    the elements, compared code unit by code unit. *)
Definition stringBefore (a b : JsValue) : bool :=
  String.ltb (Js.toStr a) (Js.toStr b).




(** ** The tool handlers (index.ts)

    What [DocsServer] computes for a tool call, before the result is
    written out with [JSON.stringify]. *)

Module DocsServer.

Inductive ToolError : Type :=
| Required (parameter : string)
    (* [new Error('Query parameter is required')], [... 'Path ...'] *)
| DocumentNotFound (docPath : string)
| Thrown (e : Exn).
    (* an exception that left the indexer *)

Inductive Reply (A : Type) : Type :=
| Done (a : A)
| Failed (e : ToolError).

Arguments Done {A} a.
Arguments Failed {A} e.

Record SearchResult : Type := mkResult {
  result_path : string;
  result_title : JsValue;
  result_summary : JsValue;
  result_category : JsValue;
  result_tags : JsValue;
  result_relevance : Q;
  result_excerpt : option string
}.

(** [extractExcerpt(content, query)], with the default [contextLength]
    of 150 that every call uses. *)
Definition extractExcerpt (content query : string) : string :=
  let queryLower := Str.toLowerCase query in
  let contentLower := Str.toLowerCase content in
  match String.index 0 queryLower contentLower with
  | None => (Str.take 150 content ++ "...")%string
  | Some index =>
      let start := (index - 75)%nat in
      let stop := Nat.min (String.length content)
                    (index + String.length query + 75) in
      let excerpt := substring start (stop - start) content in
      let excerpt :=
        if (0 <? start)%nat then ("..." ++ excerpt)%string else excerpt in
      if (stop <? String.length content)%nat
      then (excerpt ++ "...")%string else excerpt
  end.

Definition toResult (doc : Document) (excerpt : option string) : SearchResult :=
  mkResult (path doc)
    (Js.or (title doc) (JStr ""))
    (Js.or (summary doc) (JStr ""))
    (Js.or (category doc) (JStr ""))
    (Js.or (docTags doc) (JArr []))
    1
    excerpt.

(** [limit: number = 10] *)
Definition limitOr10 (limit : option Z) : Z :=
  match limit with Some n => n | None => 10%Z end.

(** The [results.push] loop: a path without a document is passed over. *)
Definition collect (idx : DocumentIndex) (excerptOf : Document -> option string)
  (paths : list string) : list SearchResult :=
  flat_map (fun docPath =>
              match getDocument idx docPath with
              | Some doc => [toResult doc (excerptOf doc)]
              | None => []
              end) paths.

Definition searchDocs (P : Platform) (idx : DocumentIndex) (query : string)
  (wantedCategory : option string) (wantedTags : option (list string))
  (limit : option Z) : Reply (list SearchResult) :=
  if query =? "" then Failed (Required "Query")
  else
    match search P idx query wantedCategory wantedTags with
    | Throw e => Failed (Thrown e)
    | Ok resultPaths =>
        Done (collect idx
                (fun doc => Some (extractExcerpt (content doc) query))
                (slice0 (limitOr10 limit) resultPaths))
    end.

(** The reply of [get_related_docs]: [source] and [related]. *)
Definition getRelatedDocs (idx : DocumentIndex) (docPath : string)
  (limit : option Z) : Reply (string * list SearchResult) :=
  if docPath =? "" then Failed (Required "Path")
  else
    match getDocument idx docPath with
    | None => Failed (DocumentNotFound docPath)
    | Some doc =>
        match getRelatedDocuments idx docPath (limitOr10 limit) with
        | Throw e => Failed (Thrown e)
        | Ok relatedPaths =>
            Done (path doc, collect idx (fun _ => None) relatedPaths)
        end
    end.

Definition getDocument (idx : DocumentIndex) (docPath : string) : Reply Document :=
  if docPath =? "" then Failed (Required "Path")
  else
    match getDocument idx docPath with
    | Some doc => Done doc
    | None => Failed (DocumentNotFound docPath)
    end.

End DocsServer.

(** ** A platform to run the indexer on

    Stand-ins for the libraries, for the examples below.  The theorems
    about the indexer hold for every [Platform]; the examples need one.
    - Paths are POSIX paths already in normal form, and [relative] is
      only asked about paths below its first argument.
    - [wordTokenize] is natural's [WordTokenizer] on ASCII text: the
      pieces between runs of characters outside [A-Za-z0-9_].
    - [sampleListTerms] lists, like natural's [TfIdf], every term of the
      lower-cased, tokenized text that is not a stop word; its weight is
      the term's number of occurrences (natural multiplies that by
      [1 + ln(N / (1 + df))], which is positive).
    - [sampleMatter] knows the frontmatter of the sample files; any other
      text is a file without frontmatter. *)

Module Sample.

Definition nl : string := String "010" "".

Definition join (dir name : string) : string := dir ++ "/" ++ name.

Definition relative (from to : string) : string :=
  if prefix (from ++ "/") to
  then Str.drop (String.length from + 1) to
  else to.

Definition isAbsolute (p : string) : bool := prefix "/" p.

Definition basename (p ext : string) : string :=
  let name := last (Str.split "/" p) "" in
  if Str.endsWith name ext && negb (name =? ext)
  then Str.take (String.length name - String.length ext) name
  else name.

Definition isWordChar (c : ascii) : bool :=
  Str.isUpper c || Str.isLower c || Str.isDigit c || Ascii.eqb c "_".

Fixpoint wordsFrom (s : string) (cur : string) : list string :=
  match s with
  | EmptyString => if cur =? "" then [] else [Str.rev cur]
  | String c s' =>
      if isWordChar c then wordsFrom s' (String c cur)
      else if cur =? "" then wordsFrom s' EmptyString
      else Str.rev cur :: wordsFrom s' EmptyString
  end.

Definition wordTokenize (text : string) : list string := wordsFrom text "".

Definition stopwords : list string :=
  [ "about"; "above"; "after"; "again"; "all"; "also"; "am"; "an"; "and";
    "another"; "any"; "are"; "as"; "at"; "be"; "because"; "been"; "before";
    "being"; "below"; "between"; "both"; "but"; "by"; "came"; "can";
    "cannot"; "come"; "could"; "did"; "do"; "does"; "doing"; "during";
    "each"; "few"; "for"; "from"; "further"; "get"; "got"; "has"; "had";
    "he"; "have"; "her"; "here"; "him"; "himself"; "his"; "how"; "if";
    "in"; "into"; "is"; "it"; "its"; "itself"; "like"; "make"; "many";
    "me"; "might"; "more"; "most"; "much"; "must"; "my"; "myself";
    "never"; "now"; "of"; "on"; "only"; "or"; "other"; "our"; "ours";
    "ourselves"; "out"; "over"; "own"; "said"; "same"; "see"; "should";
    "since"; "so"; "some"; "still"; "such"; "take"; "than"; "that"; "the";
    "their"; "theirs"; "them"; "themselves"; "then"; "there"; "these";
    "they"; "this"; "those"; "through"; "to"; "too"; "under"; "until";
    "up"; "very"; "was"; "way"; "we"; "well"; "were"; "what"; "where";
    "when"; "which"; "while"; "who"; "whom"; "with"; "would"; "why";
    "you"; "your"; "yours"; "yourself";
    "a"; "b"; "c"; "d"; "e"; "f"; "g"; "h"; "i"; "j"; "k"; "l"; "m"; "n";
    "o"; "p"; "q"; "r"; "s"; "t"; "u"; "v"; "w"; "x"; "y"; "z"; "$";
    "1"; "2"; "3"; "4"; "5"; "6"; "7"; "8"; "9"; "0"; "_" ].

Definition countTerm (counts : list (string * Q)) (term : string)
  : list (string * Q) :=
  if set_has String.eqb term stopwords then counts
  else match map_get String.eqb term counts with
       | Some n => map_set String.eqb term (n + 1) counts
       | None => map_set String.eqb term 1 counts
       end.

Definition sampleListTerms (texts : list string) (docIndex : nat)
  : list (string * Q) :=
  match nth_error texts docIndex with
  | Some text =>
      fold_left countTerm (wordTokenize (Str.toLowerCase text)) []
  | None => []
  end.

Definition frontmatter (yaml body : string) : string :=
  "---" ++ nl ++ yaml ++ nl ++ "---" ++ nl ++ body.

(** The sample files: YAML block, body, and the data gray-matter reads
    from the block. *)
Definition selfRelated : string * string * list (string * JsValue) :=
  ("related: [a.md]", "Notes on the release process.",
   [("related", JArr [JStr "a.md"])]).

Definition selfLinked : string * string * list (string * JsValue) :=
  ("title: Overview", "Back to [the top](b.md) of this page.",
   [("title", JStr "Overview")]).

Definition numericTags : string * string * list (string * JsValue) :=
  ("tags: 5", "Deploy the service with care.",
   [("tags", JNum 5)]).

Definition repeatedTag : string * string * list (string * JsValue) :=
  ("tags: [auth, auth]", "Tokens and sessions explained.",
   [("tags", JArr [JStr "auth"; JStr "auth"])]).

Definition singleTag : string * string * list (string * JsValue) :=
  ("tags: [auth]", "Password rules for accounts.",
   [("tags", JArr [JStr "auth"])]).

Definition apiDoc : string * string * list (string * JsValue) :=
  (("title: Auth endpoints" ++ nl ++ "category: api" ++ nl
    ++ "tags: [auth, security]")%string,
   "Use js to call the login endpoint.",
   [("title", JStr "Auth endpoints"); ("category", JStr "api");
    ("tags", JArr [JStr "auth"; JStr "security"])]).

Definition guideDoc : string * string * list (string * JsValue) :=
  (("title: Login guide" ++ nl ++ "category: api" ++ nl
    ++ "tags: [auth]")%string,
   "Follow the steps to sign in.",
   [("title", JStr "Login guide"); ("category", JStr "api");
    ("tags", JArr [JStr "auth"])]).

Definition sampleFiles : list (string * string * list (string * JsValue)) :=
  [selfRelated; selfLinked; numericTags; repeatedTag; singleTag; apiDoc;
   guideDoc].

Definition text (f : string * string * list (string * JsValue)) : string :=
  frontmatter (fst (fst f)) (snd (fst f)).

Fixpoint lookupFile (content : string)
  (files : list (string * string * list (string * JsValue))) : option Parsed :=
  match files with
  | [] => None
  | f :: files' =>
      if content =? text f then Some (mkParsed (snd f) (snd (fst f)))
      else lookupFile content files'
  end.

Definition sampleMatter (content : string) : option Parsed :=
  match lookupFile content sampleFiles with
  | Some parsed => Some parsed
  | None => Some (mkParsed [] content)
  end.

Definition platform : Platform :=
  mkPlatform join relative isAbsolute basename "/" sampleMatter
    wordTokenize sampleListTerms.

Definition file (f : string * string * list (string * JsValue)) : FsNode :=
  FsFile (Some (text f)) (Some 0).

Definition build (root : FsNode) : Res unit * DocumentIndex :=
  buildIndex platform "/docs" root emptyIndex.

(** Files whose frontmatter is valid YAML of other types than the
    interface [DocumentMetadata] names. *)
Definition stringTags : string * string * list (string * JsValue) :=
  ("tags: auth", "Sessions expire after an hour.",
   [("tags", JStr "auth")]).

Definition numericTitle : string * string * list (string * JsValue) :=
  ("title: 2024", "Release notes of the year.",
   [("title", JNum 2024)]).

Definition looseMatter (content : string) : option Parsed :=
  match lookupFile content [stringTags; numericTitle] with
  | Some parsed => Some parsed
  | None => sampleMatter content
  end.

Definition loosePlatform : Platform :=
  mkPlatform join relative isAbsolute basename "/" looseMatter
    wordTokenize sampleListTerms.

End Sample.

(** ** Sample document trees *)

Module Corpus.

(** A document that lists itself under [related], and one whose body
    links to itself. *)
Definition selfReferences : FsNode :=
  FsDir (Some [("a.md", Sample.file Sample.selfRelated);
               ("b.md", Sample.file Sample.selfLinked)]).

(** A document whose frontmatter says [tags: 5]. *)
Definition numericTags : FsNode :=
  FsDir (Some [("a.md", Sample.file Sample.numericTags)]).

(** [a.md] carries the tag [auth] twice, [b.md] once. *)
Definition repeatedTag : FsNode :=
  FsDir (Some [("a.md", Sample.file Sample.repeatedTag);
               ("b.md", Sample.file Sample.singleTag)]).

(** Two documents of category [api] in two directories, a file that is
    not markdown, and a directory that cannot be read. *)
Definition api : FsNode :=
  FsDir (Some
    [("api", FsDir (Some [("auth.md", Sample.file Sample.apiDoc);
                          ("README.txt", FsFile (Some "plain text") (Some 0))]));
     ("guides", FsDir (Some [("login.md", Sample.file Sample.guideDoc)]));
     ("private", FsDir None)]).

Definition apiIndex : DocumentIndex := snd (Sample.build api).

(** A document whose frontmatter says [tags: auth], and one whose
    frontmatter says [title: 2024]. *)
Definition loose : FsNode :=
  FsDir (Some [("session.md", Sample.file Sample.stringTags);
               ("notes.md", Sample.file Sample.numericTitle)]).

Definition looseIndex : DocumentIndex :=
  snd (buildIndex Sample.loosePlatform "/docs" loose emptyIndex).

End Corpus.

(** * Notions the properties are stated with *)

(** ** Index computations *)

(** [m] keeps the property [I] of the index, whether it returns or throws. *)
Definition preserves {A} (I : DocumentIndex -> Prop) (m : M A) : Prop :=
  forall s, I s -> I (snd (m s)).

(** [m] always returns. *)
Definition returns {A} (m : M A) : Prop :=
  forall s, exists a, fst (m s) = Ok a.

(** ** The state of a build *)

Definition longKeys (m : list (string * list string)) : Prop :=
  Forall (fun kv => 2 < String.length (fst kv))%nat m.

Record Indexing (paths : list string) (s : DocumentIndex) : Prop := mkIndexing {
  ix_nodup : NoDup (map fst (documents s));
  ix_found : incl (map fst (documents s)) paths;
  ix_keywords : longKeys (keywords s);
  ix_tfidf : tfidf s = [];
  ix_relationships : relationships s = []
}.

Section BuildStates.

Variable P : Platform.
Variable docsPath : string.
Variable root : FsNode.

Definition foundPaths : list string :=
  map (fun f => getRelativePath P docsPath (fullPath f))
    (findMarkdownFiles P docsPath root).

(** The index after every found file went through [indexDocument]. *)
Definition indexed : DocumentIndex :=
  snd (forEach (findMarkdownFiles P docsPath root) (indexDocument P docsPath)
         emptyIndex).

(** The index after [buildTfIdfIndex]. *)
Definition weighted : DocumentIndex := snd (buildTfIdfIndex P indexed).

End BuildStates.

(** The term map [buildTfIdfIndex] stores for the document at [docIndex]. *)
Definition engineScores (P : Platform) (docs : list (string * Document)) (docIndex : nat)
  : list (string * Q) :=
  termScores (listTerms P (map (fun e => docText (snd e)) docs) docIndex).

(** One round of the outer loop of [buildRelationships]. *)
Definition relationshipStep (P : Platform) (docsPath : string)
  (docs : list (string * Document)) (entry : string * Document) : M unit :=
  let (docPath, doc) := entry in
  bind (lift (relatedOf P docsPath docs docPath doc))
    (fun rel => modify (setRelationships docPath rel)).

(** ** Scores *)

(** What it takes for [searchStep] to give a document a score entry. *)
Definition scored (P : Platform) (idx : DocumentIndex) (queryTokens : list string)
  (wantedCategory : option string) (wantedTags : option (list string))
  (docPath : string) (doc : Document) : Prop :=
  categoryMismatch wantedCategory doc = false /\
  tagsMissing wantedTags doc = Ok false /\
  exists score, docScore idx queryTokens docPath doc = Ok score /\ 0 < score.


Section ScoreParts.

Variable idx : DocumentIndex.
Variable docPath : string.
Variable doc : Document.





End ScoreParts.

(** ** The indexing pass as a function of the index *)

Section IndexingPass.

Variable P : Platform.
Variable docsPath : string.

(** The [Document] that [indexDocument] makes of a file it could read. *)
Definition documentOf (file : FoundFile) (contents : string) (mtimeMs : Q)
  (parsed : Parsed) : Document :=
  mkDocument (getRelativePath P docsPath (fullPath file))
    (parsed_content parsed)
    (buildMetadata P docsPath (fullPath file) parsed) mtimeMs.

Definition registerToken (docPath : string) (s : DocumentIndex)
  (token : string) : DocumentIndex :=
  if (2 <? String.length token)%nat
  then setKeywords (addToBucket String.eqb token docPath) s
  else s.

Definition registerCategory (doc : Document) (s : DocumentIndex)
  : DocumentIndex :=
  if Js.truthy (category doc)
  then addCategory (category doc) (path doc) s
  else s.

(** The tag loop; when the tags cannot be iterated the index stays as it
    was before the loop. *)
Definition registerTags (doc : Document) (s : DocumentIndex) : DocumentIndex :=
  if Js.truthy (docTags doc)
  then match Js.iterate (docTags doc) with
       | Ok tagList => fold_left (fun s' tag => addTag tag (path doc) s') tagList s
       | Throw _ => s
       end
  else s.

Definition addDocument (doc : Document) (s : DocumentIndex) : DocumentIndex :=
  registerTags doc
    (registerCategory doc
       (fold_left (registerToken (path doc))
          (tokenize P (Str.toLowerCase (docText doc)))
          (setDocument doc s))).

(** The index after [indexDocument(file)]. *)
Definition addFile (s : DocumentIndex) (file : FoundFile) : DocumentIndex :=
  match readFile file, stat file with
  | Some contents, Some mtimeMs =>
      match matter P contents with
      | Some parsed => addDocument (documentOf file contents mtimeMs parsed) s
      | None => s
      end
  | _, _ => s
  end.

(** A file from which [indexDocument] makes the document [doc]. *)
Definition yields (file : FoundFile) (doc : Document) : Prop :=
  exists contents mtimeMs parsed,
    readFile file = Some contents /\ stat file = Some mtimeMs /\
    matter P contents = Some parsed /\
    doc = documentOf file contents mtimeMs parsed.

End IndexingPass.

(** [docPath] is listed under [key] in one of the three inverted maps. *)
Definition listed {K : Type} (keq : K -> K -> bool) (key : K) (docPath : string)
  (m : list (K * list string)) : Prop :=
  exists paths, map_get keq key m = Some paths /\ In docPath paths.

(** The score entries [search] sorts. *)
Definition searchScores (P : Platform) (idx : DocumentIndex) (query : string)
  (wantedCategory : option string) (wantedTags : option (list string))
  : Res (list (string * Q)) :=
  foldRes (searchStep idx (queryTokens P query) wantedCategory wantedTags)
    (documents idx) [].

(** The score entries [getRelatedDocuments] sorts. *)
Definition relatedScores (idx : DocumentIndex) (docPath : string)
  (rel : list string) : Res (list (string * Z)) :=
  foldRes (fun scores relPath =>
             rbind (relatedScore idx docPath relPath)
               (fun score => Ok (map_set String.eqb relPath score scores)))
    rel [].

(** ** A coherent index

    What the indexing pass keeps true of the documents and the three
    inverted maps, for the files [files] of a build. *)

(** Every path listed in a map of buckets. *)
Definition listedPaths {K : Type} (m : list (K * list string)) : list string :=
  List.concat (map snd m).

(** A value that [===] itself as a map key: anything but an array or an
    object read a second time. *)
Definition primitive (v : JsValue) : Prop := Js.strictEquals false v v = true.

Record Coherent (P : Platform) (docsPath : string) (files : list FoundFile)
  (s : DocumentIndex) : Prop := mkCoherent {
  co_source : forall p d, In (p, d) (documents s) ->
    path d = p /\ exists file, In file files /\ yields P docsPath file d;
  co_keywords : forall p d token, In (p, d) (documents s) ->
    In token (tokenize P (Str.toLowerCase (docText d))) ->
    (2 < String.length token)%nat ->
    listed String.eqb token p (keywords s);
  co_category : forall p d, In (p, d) (documents s) ->
    Js.truthy (category d) = true -> primitive (category d) ->
    listed (Js.strictEquals false) (category d) p (categories s);
  co_tags : forall p d items tag, In (p, d) (documents s) ->
    Js.truthy (docTags d) = true -> Js.iterate (docTags d) = Ok items ->
    In tag items -> primitive tag ->
    listed (Js.strictEquals false) tag p (tags s);
  co_keyword_paths : incl (listedPaths (keywords s)) (map fst (documents s));
  co_category_paths : incl (listedPaths (categories s)) (map fst (documents s));
  co_tag_paths : incl (listedPaths (tags s)) (map fst (documents s));
  co_category_buckets : Forall (fun e => snd e <> []) (categories s);
  co_tag_buckets : Forall (fun e => snd e <> []) (tags s)
}.

(** ** The files below a directory *)

(** [locates P dir node f]: below the directory [node] of path [dir]
    there is, through directories that can be read, a regular file whose
    name ends in [.md]; [f] has its joined path and what reading it
    gives. *)
Inductive locates (P : Platform) : string -> FsNode -> FoundFile -> Prop :=
| locates_file : forall dir entries name contents mtimeMs,
    In (name, FsFile contents mtimeMs) entries ->
    Str.endsWith name ".md" = true ->
    locates P dir (FsDir (Some entries))
      (mkFound (path_join P dir name) contents mtimeMs)
| locates_below : forall dir entries name sub f,
    In (name, FsDir sub) entries ->
    locates P (path_join P dir name) (FsDir sub) f ->
    locates P dir (FsDir (Some entries)) f.

(** ** Where the entries of the inverted maps come from *)


Section Sources.

Variable P : Platform.
Variable docsPath : string.
Variable files : list FoundFile.






End Sources.

(** ** The four ways into a relationship set *)

Section Edges.

Variable P : Platform.
Variable docsPath : string.
Variable docs : list (string * Document).

(** An entry of the [related] list of [doc] normalizes to [target], the
    path of a document. *)
Definition declaresRelated (doc : Document) (target : string) : Prop :=
  Js.truthy (related doc) = true /\
  exists items r,
    Js.iterate (related doc) = Ok items /\ In r items /\
    normalizePathOf P docsPath r = Ok target /\
    map_has String.eqb target docs = true.

(** [doc.metadata.category && doc.metadata.category === otherDoc.metadata.category] *)
Definition sharesCategory (doc otherDoc : Document) : Prop :=
  Js.truthy (category doc) = true /\
  Js.strictEquals false (category doc) (category otherDoc) = true.

(** At least two entries of the tags of [doc] are found in the tags of
    [otherDoc]. *)
Definition sharesTags (doc otherDoc : Document) : Prop :=
  exists shared,
    sharedTags false (docTags doc) (docTags otherDoc) = Ok shared /\
    (2 <= List.length shared)%nat.

(** The body of [doc] has a markdown link that normalizes to [target],
    the path of a document. *)
Definition linksTo (doc : Document) (target : string) : Prop :=
  exists link,
    In link (Link.targets (content doc)) /\
    normalizePath P docsPath link = target /\
    map_has String.eqb target docs = true.

Definition edge (docPath : string) (doc : Document) (target : string) : Prop :=
  declaresRelated doc target \/
  (target <> docPath /\
   exists otherDoc, In (target, otherDoc) docs /\
     (sharesCategory doc otherDoc \/ sharesTags doc otherDoc)) \/
  linksTo doc target.

End Edges.

(** ** The specification's wording *)

(** C1 as the specification states it: the build attempt fails and the
    index is still the previous one. *)
Definition failsKeepingPrevious (P : Platform) (docsPath : string)
  (root : FsNode) (prev : DocumentIndex) : Prop :=
  (exists e, fst (buildIndex P docsPath root prev) = Throw e) /\
  snd (buildIndex P docsPath root prev) = prev.



(** C5 as the specification states it, for an index: keyword tokens and
    TF-IDF terms alike are longer than two characters. *)
Definition allTermsLong (idx : DocumentIndex) : Prop :=
  longKeys (keywords idx) /\
  Forall (fun entry =>
            Forall (fun kv => 2 < String.length (fst kv))%nat (snd entry))
    (tfidf idx).



(** * Properties *)

(** ** Maps, sets and sorting *)

Section CollectionFacts.

Variables K V : Type.
Variable keq : K -> K -> bool.
Hypothesis keq_eq : forall a b, keq a b = true <-> a = b.

Lemma keq_refl : forall a, keq a a = true.
Proof. intro a. apply keq_eq. reflexivity. Qed.

Lemma keq_neq : forall a b, a <> b -> keq a b = false.
Proof.
  intros a b Hab. destruct (keq a b) eqn:E; [|reflexivity].
  apply keq_eq in E. contradiction.
Qed.

Lemma map_get_set_same : forall k (v : V) m,
  map_get keq k (map_set keq k v m) = Some v.
Proof.
  intros k v m. induction m as [|[k' v'] m IH]; simpl.
  - rewrite keq_refl. reflexivity.
  - destruct (keq k k') eqn:E; simpl; rewrite E; [reflexivity|exact IH].
Qed.

Lemma map_get_set_other : forall k k' (v : V) m,
  k <> k' -> map_get keq k (map_set keq k' v m) = map_get keq k m.
Proof.
  intros k k' v m Hne. induction m as [|[k2 v2] m IH]; simpl.
  - rewrite (keq_neq _ _ Hne). reflexivity.
  - destruct (keq k' k2) eqn:E; simpl.
    + apply keq_eq in E. subst k2. rewrite (keq_neq _ _ Hne). reflexivity.
    + rewrite IH. reflexivity.
Qed.

Lemma map_set_keys : forall k (v : V) m,
  map fst (map_set keq k v m) =
  if map_has keq k m then map fst m else map fst m ++ [k].
Proof.
  intros k v m. unfold map_has.
  induction m as [|[k' v'] m IH]; simpl; [reflexivity|].
  destruct (keq k k') eqn:E; simpl; [reflexivity|].
  rewrite IH. destruct (map_get keq k m); reflexivity.
Qed.

Lemma map_get_none : forall k (m : list (K * V)),
  map_get keq k m = None <-> ~ In k (map fst m).
Proof.
  intros k m. induction m as [|[k' v'] m IH]; simpl.
  - tauto.
  - destruct (keq k k') eqn:E.
    + apply keq_eq in E. subst. split; [discriminate|tauto].
    + rewrite IH. split.
      * intros Hn [Heq|Hin]; [|tauto]. subst.
        rewrite keq_refl in E. discriminate.
      * tauto.
Qed.

Lemma map_has_true : forall k (m : list (K * V)),
  map_has keq k m = true <-> In k (map fst m).
Proof.
  intros k m. unfold map_has. induction m as [|[k' v'] m IH]; simpl.
  - split; [discriminate|tauto].
  - destruct (keq k k') eqn:E.
    + apply keq_eq in E. subst. tauto.
    + rewrite IH. split; [tauto|]. intros [Heq|Hin]; [|exact Hin].
      subst. rewrite keq_refl in E. discriminate.
Qed.

Lemma NoDup_map_set : forall k (v : V) m,
  NoDup (map fst m) -> NoDup (map fst (map_set keq k v m)).
Proof.
  intros k v m Hnd. rewrite map_set_keys.
  destruct (map_has keq k m) eqn:E; [exact Hnd|].
  assert (Hout : ~ In k (map fst m)).
  { intro Hin. apply map_has_true in Hin. congruence. }
  clear E. induction (map fst m) as [|x l IH]; simpl.
  - constructor; [tauto|constructor].
  - inversion Hnd; subst. constructor.
    + rewrite in_app_iff. simpl. intros [H|[H|[]]]; [tauto|].
      subst. apply Hout. left. reflexivity.
    + apply IH; [assumption|]. intro H. apply Hout. right. exact H.
Qed.

Lemma map_get_in : forall k (v : V) m,
  map_get keq k m = Some v -> In (k, v) m.
Proof.
  intros k v m. induction m as [|[k' v'] m IH]; simpl; [discriminate|].
  destruct (keq k k') eqn:E.
  - apply keq_eq in E. intro H. inversion H. subst. left. reflexivity.
  - intro H. right. exact (IH H).
Qed.

Lemma in_map_get : forall k (v : V) m,
  NoDup (map fst m) -> In (k, v) m -> map_get keq k m = Some v.
Proof.
  intros k v m. induction m as [|[k' v'] m IH]; simpl; [tauto|].
  intros Hnd [Heq|Hin].
  - inversion Heq. subst. rewrite keq_refl. reflexivity.
  - inversion Hnd; subst. destruct (keq k k') eqn:E.
    + apply keq_eq in E. subst. exfalso. apply H1.
      change k' with (fst (k', v)). apply in_map. exact Hin.
    + apply IH; assumption.
Qed.

Lemma in_map_set : forall k k' (v v' : V) m,
  In (k', v') (map_set keq k v m) -> In (k', v') m \/ (k' = k /\ v' = v).
Proof.
  intros k k' v v' m. induction m as [|[k2 v2] m IH]; simpl.
  - intros [H|[]]. inversion H. tauto.
  - destruct (keq k k2) eqn:E; simpl.
    + apply keq_eq in E. subst k2. intros [H|H]; [|tauto].
      inversion H. tauto.
    + intros [H|H]; [tauto|]. destruct (IH H); tauto.
Qed.

Lemma set_has_true : forall x (s : list K), set_has keq x s = true <-> In x s.
Proof.
  intros x s. unfold set_has. rewrite existsb_exists. split.
  - intros [y [Hin Hy]]. apply keq_eq in Hy. subst. exact Hin.
  - intro Hin. exists x. split; [exact Hin|apply keq_refl].
Qed.

Lemma in_set_add : forall x y (s : list K),
  In y (set_add keq x s) <-> y = x \/ In y s.
Proof.
  intros x y s. unfold set_add. destruct (set_has keq x s) eqn:E.
  - apply set_has_true in E. split; [tauto|]. intros [H|H]; subst; assumption.
  - rewrite in_app_iff. simpl. split; intros; intuition congruence.
Qed.

End CollectionFacts.

Section SortFacts.

Variable A : Type.
Variable before : A -> A -> bool.

Lemma in_insertDesc : forall x y (l : list A),
  In y (insertDesc before x l) <-> y = x \/ In y l.
Proof.
  intros x y l. induction l as [|z l IH]; simpl.
  - intuition congruence.
  - destruct (before z x); simpl; [rewrite IH|]; intuition congruence.
Qed.

Lemma in_sortDesc : forall y (l : list A), In y (sortDesc before l) <-> In y l.
Proof.
  intros y l. induction l as [|x l IH]; simpl; [tauto|].
  rewrite in_insertDesc, IH. intuition congruence.
Qed.

End SortFacts.

(** ** Running index computations *)

Section MonadFacts.

Variable I : DocumentIndex -> Prop.

Lemma preserves_ret : forall A (a : A), preserves I (ret a).
Proof. intros A a s Hs. exact Hs. Qed.

Lemma preserves_lift : forall A (r : Res A), preserves I (lift r).
Proof. intros A r s Hs. exact Hs. Qed.

Lemma preserves_getIndex : preserves I getIndex.
Proof. intros s Hs. exact Hs. Qed.

Lemma preserves_modify : forall f,
  (forall s, I s -> I (f s)) -> preserves I (modify f).
Proof. intros f Hf s Hs. simpl. apply Hf, Hs. Qed.

Lemma preserves_bind : forall A B (m : M A) (f : A -> M B),
  preserves I m -> (forall a, preserves I (f a)) -> preserves I (bind m f).
Proof.
  intros A B m f Hm Hf s Hs. unfold bind.
  specialize (Hm s Hs). destruct (m s) as [[a|e] s']; simpl in *.
  - apply Hf, Hm.
  - exact Hm.
Qed.

Lemma preserves_when : forall b m, preserves I m -> preserves I (when b m).
Proof. intros [|] m Hm; [exact Hm|apply preserves_ret]. Qed.

Lemma preserves_forEach : forall A (l : list A) f,
  (forall x, In x l -> preserves I (f x)) -> preserves I (forEach l f).
Proof.
  intros A l f. induction l as [|x l IH]; intros Hf; simpl.
  - apply preserves_ret.
  - apply preserves_bind.
    + apply Hf. left. reflexivity.
    + intros _. apply IH. intros y Hy. apply Hf. right. exact Hy.
Qed.

Lemma preserves_tryCatch : forall m, preserves I m -> preserves I (tryCatch m).
Proof.
  intros m Hm s Hs. unfold tryCatch. specialize (Hm s Hs).
  destruct (m s) as [[a|e] s']; exact Hm.
Qed.

End MonadFacts.

Lemma returns_tryCatch : forall m, returns (tryCatch m).
Proof.
  intros m s. exists tt. unfold tryCatch. destruct (m s) as [[a|e] s']; reflexivity.
Qed.

Lemma returns_forEach : forall A (l : list A) f,
  (forall x, returns (f x)) -> returns (forEach l f).
Proof.
  intros A l f Hf. induction l as [|x l IH]; intro s; simpl.
  - exists tt. reflexivity.
  - unfold bind. destruct (Hf x s) as [a Ha].
    destruct (f x s) as [[a'|e] s']; simpl in Ha; [|discriminate].
    apply IH.
Qed.

Lemma forEach_cons : forall A (x : A) l f s,
  forEach (x :: l) f s =
  match f x s with
  | (Ok _, s1) => forEach l f s1
  | (Throw e, s1) => (Throw e, s1)
  end.
Proof. reflexivity. Qed.

Lemma foldRes_cons : forall A S (f : S -> A -> Res S) x l s,
  foldRes f (x :: l) s = rbind (f s x) (foldRes f l).
Proof. reflexivity. Qed.

(** A loop of plain updates is a fold. *)
Lemma forEach_modify : forall A (l : list A) (h : A -> DocumentIndex -> DocumentIndex) s,
  forEach l (fun x => modify (h x)) s = (Ok tt, fold_left (fun s x => h x s) l s).
Proof.
  intros A l h. induction l as [|x l IH]; intro s; simpl; [reflexivity|].
  unfold bind, modify. apply IH.
Qed.

(** ** The indexing pass

    What holds of the index while documents are being added. *)

Lemma longKeys_addToBucket : forall token p m,
  (2 < String.length token)%nat -> longKeys m ->
  longKeys (addToBucket String.eqb token p m).
Proof.
  intros token p m Hlen Hm. unfold addToBucket.
  assert (Hset : forall v, longKeys (map_set String.eqb token v m)).
  { intro v. unfold longKeys in *. induction Hm as [|[k v'] m Hk Hm IH]; simpl.
    - constructor; [exact Hlen|constructor].
    - destruct (token =? k); constructor; simpl; assumption. }
  destruct (map_get String.eqb token m); apply Hset.
Qed.

Section IndexingFacts.

Variable P : Platform.
Variable docsPath : string.
Variable paths : list string.

Lemma indexKeywords_indexing : forall doc,
  preserves (Indexing paths) (indexKeywords P doc).
Proof.
  intro doc. unfold indexKeywords. apply preserves_forEach. intros token _.
  destruct (2 <? String.length token)%nat eqn:Hlen; simpl; [|apply preserves_ret].
  apply Nat.ltb_lt in Hlen. apply preserves_modify.
  intros s [H1 H2 H3 H4 H5]. constructor; simpl; try assumption.
  apply longKeys_addToBucket; assumption.
Qed.

Lemma indexDocument_indexing : forall file,
  In (getRelativePath P docsPath (fullPath file)) paths ->
  preserves (Indexing paths) (indexDocument P docsPath file).
Proof.
  intros file Hin. unfold indexDocument. apply preserves_tryCatch.
  apply preserves_bind; [apply preserves_lift|]. intro c.
  apply preserves_bind; [apply preserves_lift|]. intro t.
  apply preserves_bind; [apply preserves_lift|]. intro parsed.
  apply preserves_bind.
  { apply preserves_modify. intros s [H1 H2 H3 H4 H5].
    constructor; simpl; try assumption.
    - apply NoDup_map_set; [apply String.eqb_eq|exact H1].
    - rewrite map_set_keys. destruct (map_has _ _ _); [exact H2|].
      intros x Hx. apply in_app_or in Hx. destruct Hx as [Hx|[Hx|[]]].
      + apply H2, Hx.
      + subst x. exact Hin. }
  intros _. apply preserves_bind; [apply indexKeywords_indexing|].
  intros _. apply preserves_bind.
  { apply preserves_when, preserves_modify. intros s [H1 H2 H3 H4 H5].
    constructor; simpl; assumption. }
  intros _. apply preserves_when.
  apply preserves_bind; [apply preserves_lift|]. intro tagList.
  apply preserves_forEach. intros tag _. apply preserves_modify.
  intros s [H1 H2 H3 H4 H5]. constructor; simpl; assumption.
Qed.

(** A file that cannot be read, or whose frontmatter cannot be parsed,
    leaves the index as it was. *)
Lemma indexDocument_skips_unreadable : forall file s,
  readFile file = None \/ stat file = None \/
  (exists c, readFile file = Some c /\ matter P c = None) ->
  indexDocument P docsPath file s = (Ok tt, s).
Proof.
  intros file s H. unfold indexDocument, tryCatch, bind, lift.
  destruct (readFile file) as [c|]; [|reflexivity].
  destruct (stat file) as [t|]; [|reflexivity].
  destruct (matter P c) as [parsed|] eqn:E; [|reflexivity].
  destruct H as [H|[H|[c' [Hc H]]]]; try discriminate.
  inversion Hc. subst c'. rewrite E in H. discriminate.
Qed.

Lemma indexDocument_returns : forall file, returns (indexDocument P docsPath file).
Proof. intro file. apply returns_tryCatch. Qed.

End IndexingFacts.

(** ** The three passes of a build *)

Lemma map_set_fresh : forall V k (v : V) m,
  ~ In k (map fst m) -> map_set String.eqb k v m = m ++ [(k, v)].
Proof.
  intros V k v m. induction m as [|[k' v'] m IH]; simpl; intro Hout; [reflexivity|].
  destruct (k =? k') eqn:E.
  - apply String.eqb_eq in E. subst. tauto.
  - rewrite IH; [reflexivity|tauto].
Qed.

Lemma fold_map_set_fresh : forall A V (key : A -> string) (val : A -> V) l m,
  NoDup (map fst m ++ map key l) ->
  fold_left (fun acc e => map_set String.eqb (key e) (val e) acc) l m =
  m ++ map (fun e => (key e, val e)) l.
Proof.
  intros A V key val l. induction l as [|x l IH]; intros m Hnd; simpl.
  - rewrite app_nil_r. reflexivity.
  - simpl in Hnd. rewrite map_set_fresh.
    + rewrite IH.
      * rewrite <- app_assoc. reflexivity.
      * rewrite map_app. simpl. rewrite <- app_assoc. exact Hnd.
    + apply NoDup_remove_2 in Hnd. intro Hin. apply Hnd.
      apply in_or_app. left. exact Hin.
Qed.

Lemma withIndex_fst : forall A (l : list A) i, map fst (withIndex i l) = l.
Proof.
  intros A l. induction l as [|x l IH]; intro i; simpl; [reflexivity|].
  rewrite IH. reflexivity.
Qed.

Lemma withIndex_keys : forall A B (g : A * nat -> B) (l : list A) i,
  map fst (map (fun e => (fst e, g e)) (withIndex i l)) = l.
Proof.
  intros A B g l. induction l as [|x l IH]; intro i; simpl; [reflexivity|].
  rewrite IH. reflexivity.
Qed.

Lemma withIndex_nth : forall A (l : list A) i n x,
  nth_error l n = Some x -> nth_error (withIndex i l) n = Some (x, (i + n)%nat).
Proof.
  intros A l. induction l as [|y l IH]; intros i n x; destruct n; simpl;
    try discriminate.
  - intro H. inversion H. rewrite Nat.add_0_r. reflexivity.
  - intro H. rewrite (IH (S i) n x H). f_equal. f_equal. lia.
Qed.

Section BuildFacts.

Variable P : Platform.
Variable docsPath : string.
Variable root : FsNode.

Lemma indexed_indexing :
  Indexing (foundPaths P docsPath root) (indexed P docsPath root).
Proof.
  unfold indexed. apply preserves_forEach.
  - intros file Hfile. apply indexDocument_indexing.
    unfold foundPaths.
    apply (in_map (fun f => getRelativePath P docsPath (fullPath f))).
    exact Hfile.
  - constructor; simpl; try reflexivity; try constructor.
    intros x [].
Qed.

Lemma buildTfIdfIndex_run : forall s,
  buildTfIdfIndex P s =
  (Ok tt,
   mkIndex (documents s) (keywords s) (categories s) (tags s)
     (fold_left (fun acc e => map_set String.eqb (fst e)
                                (engineScores P (documents s) (snd e)) acc)
        (withIndex 0 (map fst (documents s))) (tfidf s))
     (relationships s)).
Proof.
  intro s. unfold buildTfIdfIndex, bind, getIndex, engineScores.
  generalize (withIndex 0 (map fst (documents s))) as l.
  generalize (map (fun e => docText (snd e)) (documents s)) as texts.
  intros texts l. destruct s as [d k c t w r]. simpl.
  revert w. induction l as [|[p i] l IH]; intro w; simpl; [reflexivity|].
  unfold bind, modify, setTfidf. simpl. apply IH.
Qed.

Lemma weighted_documents : documents (weighted P docsPath root) = documents (indexed P docsPath root).
Proof. unfold weighted. rewrite buildTfIdfIndex_run. reflexivity. Qed.

Lemma weighted_keywords : keywords (weighted P docsPath root) = keywords (indexed P docsPath root).
Proof. unfold weighted. rewrite buildTfIdfIndex_run. reflexivity. Qed.

Lemma weighted_relationships : relationships (weighted P docsPath root) = [].
Proof.
  unfold weighted. rewrite buildTfIdfIndex_run. simpl.
  apply (ix_relationships _ _ indexed_indexing).
Qed.

Lemma weighted_tfidf :
  tfidf (weighted P docsPath root) =
  map (fun e => (fst e, engineScores P (documents (weighted P docsPath root)) (snd e)))
    (withIndex 0 (map fst (documents (weighted P docsPath root)))).
Proof.
  rewrite weighted_documents. unfold weighted. rewrite buildTfIdfIndex_run.
  simpl. rewrite (ix_tfidf _ _ indexed_indexing).
  rewrite fold_map_set_fresh; [reflexivity|].
  simpl. rewrite withIndex_fst. apply (ix_nodup _ _ indexed_indexing).
Qed.

Lemma buildIndex_phases : forall prev,
  buildIndex P docsPath root prev =
  buildRelationships P docsPath (weighted P docsPath root).
Proof.
  intro prev. unfold buildIndex, bind at 1. simpl.
  unfold bind at 1.
  pose proof (returns_forEach _ (findMarkdownFiles P docsPath root)
                (indexDocument P docsPath)
                (indexDocument_returns P docsPath) emptyIndex) as [u Hu].
  unfold weighted, indexed.
  destruct (forEach (findMarkdownFiles P docsPath root)
              (indexDocument P docsPath) emptyIndex) as [[a|e] s1];
    simpl in Hu; [|discriminate].
  unfold bind at 1. simpl. rewrite buildTfIdfIndex_run. reflexivity.
Qed.

(** [buildRelationships] writes to [relationships] only. *)
Lemma buildRelationships_frame : forall s,
  let s' := snd (buildRelationships P docsPath s) in
  documents s' = documents s /\ keywords s' = keywords s /\
  tfidf s' = tfidf s.
Proof.
  intro s.
  apply (@preserves_bind
           (fun s' => documents s' = documents s /\ keywords s' = keywords s /\
                      tfidf s' = tfidf s)).
  - apply preserves_getIndex.
  - intro s0. apply preserves_forEach. intros [p d] _.
    apply preserves_bind; [apply preserves_lift|]. intro rel.
    apply preserves_modify. intros s1 H. exact H.
  - repeat split.
Qed.

End BuildFacts.


(** ** C1: a root directory that cannot be read *)

(** C1, refuted as stated: with the root unreadable and a populated index
    in place, [buildIndex] does not fail and does not keep that index. *)
Lemma unreadable_root_does_not_fail :
  ~ failsKeepingPrevious Sample.platform "/docs" (FsDir None) Corpus.apiIndex.
Proof.
  intros [[e He] _]. vm_compute in He. discriminate He.
Qed.

(** C1, amended: when [readdir] of the root is rejected (the directory is
    unreadable or missing, or the path is not a directory), [buildIndex]
    completes and leaves an empty index in place of the previous one. *)
Theorem buildIndex_unreadable_root : forall P docsPath prev,
  buildIndex P docsPath (FsDir None) prev = (Ok tt, emptyIndex) /\
  buildIndex P docsPath FsOther prev = (Ok tt, emptyIndex) /\
  forall contents mtimeMs,
    buildIndex P docsPath (FsFile contents mtimeMs) prev = (Ok tt, emptyIndex).
Proof.
  intros P docsPath prev. repeat split.
Qed.

(** ** C2: self-loops *)

(** C2, the code at a failing input: [a.md] names itself in [related] and
    [b.md] links to itself; each ends up in its own relationship set, and
    [getRelatedDocuments] of [a.md] ranks [a.md] first. *)
Theorem self_reference_gives_self_loop :
  let idx := snd (Sample.build Corpus.selfReferences) in
  fst (Sample.build Corpus.selfReferences) = Ok tt /\
  map_get String.eqb "a.md" (relationships idx) = Some ["a.md"; "b.md"] /\
  map_get String.eqb "b.md" (relationships idx) = Some ["a.md"; "b.md"] /\
  getRelatedDocuments idx "a.md" 10 = Ok ["a.md"; "b.md"].
Proof.
  vm_compute. repeat split.
Qed.

(** ** C3: an error in the middle of [indexDocument] *)

(** C3, the code at a failing input: with [tags: 5] in the frontmatter the
    loop over the tags throws after the document, its keywords and its
    category were registered; the [catch] block keeps all of that, and the
    tag index has nothing for the file. *)
Theorem numeric_tags_leave_partial_entry :
  let idx := snd (Sample.build Corpus.numericTags) in
  (exists doc, getDocument idx "a.md" = Some doc /\ docTags doc = JNum 5) /\
  Js.iterate (JNum 5) = Throw TypeError /\
  map_get String.eqb "deploy" (keywords idx) = Some ["a.md"] /\
  map_get (Js.strictEquals false) (JStr "general") (categories idx)
    = Some ["a.md"] /\
  tags idx = [].
Proof.
  vm_compute. split; [eexists; split; reflexivity|repeat split].
Qed.

(** ** C4: the score of a neighbour *)

Lemma existsb_strictEquals_str : forall same t l,
  existsb (Js.strictEquals same (JStr t)) (map JStr l) = existsb (String.eqb t) l.
Proof.
  intros same t l. induction l as [|x l IH]; simpl; [reflexivity|].
  rewrite IH. reflexivity.
Qed.


Lemma sharedTags_strings : forall same a b,
  sharedTags same (JArr (map JStr a)) (JArr (map JStr b)) =
  Ok (map JStr (filter (fun t => existsb (String.eqb t) b) a)).
Proof.
  intros same a b. simpl. induction a as [|t a IH]; simpl; [reflexivity|].
  rewrite existsb_strictEquals_str, IH. simpl.
  destruct (existsb (String.eqb t) b); reflexivity.
Qed.




(** ** C5: the length of indexed tokens *)

Lemma Forall_map_get : forall V (Q : string * V -> Prop) m k v,
  Forall Q m -> map_get String.eqb k m = Some v -> Q (k, v).
Proof.
  intros V Q m k v HQ Hget. rewrite Forall_forall in HQ. apply HQ.
  apply (map_get_in _ _ String.eqb String.eqb_eq). exact Hget.
Qed.

Lemma in_map_set_keys : forall V k (v : V) m t,
  In t (map fst (map_set String.eqb k v m)) <-> In t (map fst m) \/ t = k.
Proof.
  intros V k v m t. rewrite map_set_keys.
  destruct (map_has String.eqb k m) eqn:E.
  - apply (map_has_true _ _ String.eqb String.eqb_eq) in E.
    split; [tauto|]. intros [H|H]; [exact H|subst; exact E].
  - rewrite in_app_iff. simpl. intuition congruence.
Qed.

Lemma termScores_keys_from : forall (items m : list (string * Q)) t,
  In t (map fst (fold_left
                   (fun scores item => map_set String.eqb (fst item) (snd item) scores)
                   items m))
  <-> In t (map fst m) \/ In t (map fst items).
Proof.
  intros items. induction items as [|[k w] items IH]; intros m t; simpl.
  - tauto.
  - rewrite IH, in_map_set_keys. intuition congruence.
Qed.

Lemma termScores_keys : forall items t,
  In t (map fst (termScores items)) <-> In t (map fst items).
Proof.
  intros items t. unfold termScores. rewrite termScores_keys_from. simpl. tauto.
Qed.

(** C5, refuted as stated: the body of [api/auth.md] has the word [js],
    which the TF-IDF engine lists and [buildTfIdfIndex] stores. *)
Lemma tfidf_keeps_short_term : ~ allTermsLong Corpus.apiIndex.
Proof.
  intros [_ H].
  assert (Hs : exists scores,
             map_get String.eqb "api/auth.md" (tfidf Corpus.apiIndex) = Some scores /\
             map_get String.eqb "js" scores = Some 2).
  { vm_compute. eexists. split; reflexivity. }
  destruct Hs as [scores [Hs Hjs]].
  apply (@Forall_map_get _ _ _ _ _ H) in Hs. simpl in Hs.
  apply (@Forall_map_get _ _ _ _ _ Hs) in Hjs. simpl in Hjs. lia.
Qed.

(** C5, amended: after a build every token of the keyword index is longer
    than two characters, and the term map stored for the [i]-th document
    holds exactly the terms the TF-IDF engine lists for it, whatever their
    length. *)
Theorem keywords_long_tfidf_as_listed : forall P docsPath root prev,
  let idx := snd (buildIndex P docsPath root prev) in
  longKeys (keywords idx) /\
  forall i docPath doc,
    nth_error (documents idx) i = Some (docPath, doc) ->
    exists scores,
      map_get String.eqb docPath (tfidf idx) = Some scores /\
      forall term,
        In term (map fst scores) <->
        In term (map fst (listTerms P
                            (map (fun e => docText (snd e)) (documents idx)) i)).
Proof.
  intros P docsPath root prev. simpl. rewrite buildIndex_phases.
  destruct (buildRelationships_frame P docsPath (weighted P docsPath root))
    as [Hd [Hk Ht]].
  rewrite Hd, Hk, Ht. split.
  - rewrite weighted_keywords. apply (ix_keywords _ _ (indexed_indexing P docsPath root)).
  - intros i docPath doc Hnth.
    exists (engineScores P (documents (weighted P docsPath root)) i). split.
    + rewrite weighted_tfidf.
      apply (in_map_get _ _ String.eqb String.eqb_eq).
      * rewrite withIndex_keys, weighted_documents.
        apply (ix_nodup _ _ (indexed_indexing P docsPath root)).
      * apply (in_map (fun e => (fst e, engineScores P
                                   (documents (weighted P docsPath root)) (snd e)))
                 _ (docPath, i)).
        apply (nth_error_In _ i).
        change i with (0 + i)%nat at 2. apply withIndex_nth.
        rewrite nth_error_map, Hnth. reflexivity.
    + intro term. unfold engineScores. apply termScores_keys.
Qed.

(** ** C6: documents of one category *)

Section RelationshipFacts.

Variable P : Platform.
Variable docsPath : string.
Variable docs : list (string * Document).

Lemma addIfDocument_keeps : forall p rel x,
  In x rel -> In x (addIfDocument docs p rel).
Proof.
  intros p rel x Hx. unfold addIfDocument.
  destruct (map_has String.eqb p docs); [|exact Hx].
  apply (in_set_add _ String.eqb String.eqb_eq). right. exact Hx.
Qed.

Lemma linkRelated_keeps : forall doc rel x,
  In x rel -> In x (linkRelated P docsPath docs doc rel).
Proof.
  intros doc rel x. unfold linkRelated.
  generalize (Link.targets (content doc)) as targets. intro targets.
  revert rel. induction targets as [|t targets IH]; intros rel Hx; simpl.
  - exact Hx.
  - apply IH, addIfDocument_keeps, Hx.
Qed.

Lemma in_cond_add : forall (b : bool) p rel x,
  In x rel -> In x (if b then set_add String.eqb p rel else rel).
Proof.
  intros b p rel x Hx. destruct b; [|exact Hx].
  apply (in_set_add _ String.eqb String.eqb_eq). right. exact Hx.
Qed.

Lemma Ok_inj : forall A (a b : A), Ok a = Ok b -> a = b.
Proof. intros A a b H. injection H as H. exact H. Qed.

Lemma implicitStep_keeps : forall docPath doc rel other rel' x,
  implicitStep docPath doc rel other = Ok rel' -> In x rel -> In x rel'.
Proof.
  intros docPath doc rel [otherPath otherDoc] rel' x. unfold implicitStep.
  destruct (otherPath =? docPath).
  - intros H Hx. apply Ok_inj in H. subst. exact Hx.
  - destruct (sharedTags false (docTags doc) (docTags otherDoc)) as [shared|e];
      cbn [rbind]; [|discriminate].
    intros H Hx. apply Ok_inj in H. subst rel'.
    apply in_cond_add, in_cond_add, Hx.
Qed.

Lemma implicitStep_same_category : forall docPath doc rel otherPath otherDoc rel',
  implicitStep docPath doc rel (otherPath, otherDoc) = Ok rel' ->
  otherPath <> docPath ->
  Js.truthy (category doc) = true ->
  Js.strictEquals false (category doc) (category otherDoc) = true ->
  In otherPath rel'.
Proof.
  intros docPath doc rel otherPath otherDoc rel' H Hne Ht He.
  unfold implicitStep in H.
  destruct (otherPath =? docPath) eqn:E.
  { apply String.eqb_eq in E. contradiction. }
  rewrite Ht, He in H. cbn [andb] in H.
  destruct (sharedTags false (docTags doc) (docTags otherDoc)) as [shared|e];
    cbn [rbind] in H; [|discriminate].
  apply Ok_inj in H. subst rel'. apply in_cond_add.
  apply (in_set_add _ String.eqb String.eqb_eq). left. reflexivity.
Qed.

Lemma implicit_loop_keeps : forall docPath doc others rel rel' x,
  foldRes (implicitStep docPath doc) others rel = Ok rel' ->
  In x rel -> In x rel'.
Proof.
  intros docPath doc others.
  induction others as [|other others IH]; intros rel rel' x H Hx; simpl in H.
  - inversion H. subst. exact Hx.
  - destruct (implicitStep docPath doc rel other) as [rel1|e] eqn:E;
      simpl in H; [|discriminate].
    eapply IH; [exact H|]. eapply implicitStep_keeps; eassumption.
Qed.

(** The loop over the other documents never adds the document itself. *)
Lemma implicitStep_not_self : forall docPath doc rel other rel',
  implicitStep docPath doc rel other = Ok rel' ->
  In docPath rel' -> In docPath rel.
Proof.
  intros docPath doc rel [otherPath otherDoc] rel'. unfold implicitStep.
  destruct (otherPath =? docPath) eqn:E.
  - intros H Hin. apply Ok_inj in H. subst. exact Hin.
  - destruct (sharedTags false (docTags doc) (docTags otherDoc)) as [shared|e];
      cbn [rbind]; [|discriminate].
    intros H Hin. apply Ok_inj in H. subst rel'.
    assert (Hdrop : forall (b : bool) r,
              In docPath (if b then set_add String.eqb otherPath r else r) ->
              In docPath r).
    { intros b r Hr. destruct b; [|exact Hr].
      apply (in_set_add _ String.eqb String.eqb_eq) in Hr.
      destruct Hr as [Heq|Hr]; [|exact Hr].
      subst otherPath. rewrite String.eqb_refl in E. discriminate. }
    apply Hdrop in Hin. apply Hdrop in Hin. exact Hin.
Qed.

Lemma implicit_loop_not_self : forall docPath doc others rel rel',
  foldRes (implicitStep docPath doc) others rel = Ok rel' ->
  In docPath rel' -> In docPath rel.
Proof.
  intros docPath doc others.
  induction others as [|other others IH]; intros rel rel' H Hin.
  - simpl in H. apply Ok_inj in H. subst. exact Hin.
  - rewrite foldRes_cons in H.
    destruct (implicitStep docPath doc rel other) as [rel1|e] eqn:E;
      cbn [rbind] in H; [|discriminate].
    eapply implicitStep_not_self; [exact E|]. eapply IH; eassumption.
Qed.

Lemma implicit_loop_same_category :
  forall docPath doc others rel rel' otherPath otherDoc,
    foldRes (implicitStep docPath doc) others rel = Ok rel' ->
    In (otherPath, otherDoc) others ->
    otherPath <> docPath ->
    Js.truthy (category doc) = true ->
    Js.strictEquals false (category doc) (category otherDoc) = true ->
    In otherPath rel'.
Proof.
  intros docPath doc others.
  induction others as [|other others IH];
    intros rel rel' otherPath otherDoc H Hin Hne Ht He; simpl in *.
  - contradiction.
  - destruct (implicitStep docPath doc rel other) as [rel1|e] eqn:E;
      simpl in H; [|discriminate].
    destruct Hin as [Heq|Hin].
    + subst other. eapply implicit_loop_keeps; [exact H|].
      eapply implicitStep_same_category; eassumption.
    + eapply IH; eassumption.
Qed.

Lemma relatedOf_same_category : forall docPath doc rel otherPath otherDoc,
  relatedOf P docsPath docs docPath doc = Ok rel ->
  In (otherPath, otherDoc) docs ->
  otherPath <> docPath ->
  Js.truthy (category doc) = true ->
  Js.strictEquals false (category doc) (category otherDoc) = true ->
  In otherPath rel.
Proof.
  intros docPath doc rel otherPath otherDoc H Hin Hne Ht He.
  unfold relatedOf in H.
  destruct (explicitRelated P docsPath docs doc []) as [rel1|e];
    simpl in H; [|discriminate].
  destruct (foldRes (implicitStep docPath doc) docs rel1) as [rel2|e] eqn:E;
    simpl in H; [|discriminate].
  apply Ok_inj in H. subst rel. apply linkRelated_keeps.
  eapply implicit_loop_same_category; eassumption.
Qed.

Lemma relationshipStep_run : forall q d s,
  relationshipStep P docsPath docs (q, d) s =
  match relatedOf P docsPath docs q d with
  | Ok rel => (Ok tt, setRelationships q rel s)
  | Throw e => (Throw e, s)
  end.
Proof.
  intros q d s. unfold relationshipStep, bind, lift, modify.
  destruct (relatedOf P docsPath docs q d); reflexivity.
Qed.

Lemma relationship_loop_other : forall entries s s' p,
  forEach entries (relationshipStep P docsPath docs) s = (Ok tt, s') ->
  ~ In p (map fst entries) ->
  map_get String.eqb p (relationships s') = map_get String.eqb p (relationships s).
Proof.
  intros entries.
  induction entries as [|[q d] entries IH]; intros s s' p H Hout.
  - simpl in H. unfold ret in H. inversion H. reflexivity.
  - simpl in Hout. rewrite forEach_cons, relationshipStep_run in H.
    destruct (relatedOf P docsPath docs q d) as [rel|e]; [|discriminate].
    erewrite IH; [|exact H|tauto]. simpl.
    apply (map_get_set_other _ _ String.eqb String.eqb_eq). intro Heq. subst. tauto.
Qed.

Lemma relationship_loop_entry : forall entries s s' p d,
  forEach entries (relationshipStep P docsPath docs) s = (Ok tt, s') ->
  NoDup (map fst entries) ->
  In (p, d) entries ->
  exists rel,
    relatedOf P docsPath docs p d = Ok rel /\
    map_get String.eqb p (relationships s') = Some rel.
Proof.
  intros entries.
  induction entries as [|[q d'] entries IH]; intros s s' p d H Hnd Hin.
  - contradiction.
  - simpl in Hnd, Hin. rewrite forEach_cons, relationshipStep_run in H.
    destruct (relatedOf P docsPath docs q d') as [rel|e] eqn:E; [|discriminate].
    inversion Hnd as [|? ? Hq Hnd']; subst.
    destruct Hin as [Heq|Hin].
    + inversion Heq. subst q d'. exists rel. split; [exact E|].
      erewrite relationship_loop_other; [|exact H|exact Hq]. simpl.
      apply map_get_set_same. apply String.eqb_eq.
    + eapply IH; eassumption.
Qed.

End RelationshipFacts.

Lemma buildRelationships_loop : forall P docsPath s,
  buildRelationships P docsPath s =
  forEach (documents s) (relationshipStep P docsPath (documents s)) s.
Proof. reflexivity. Qed.

Lemma built_relationships : forall P docsPath root prev idx p d,
  buildIndex P docsPath root prev = (Ok tt, idx) ->
  getDocument idx p = Some d ->
  exists rel,
    relatedOf P docsPath (documents idx) p d = Ok rel /\
    map_get String.eqb p (relationships idx) = Some rel.
Proof.
  intros P docsPath root prev idx p d Hbuild Hget.
  rewrite buildIndex_phases in Hbuild.
  destruct (buildRelationships_frame P docsPath (weighted P docsPath root))
    as [Hd _]. rewrite Hbuild in Hd. simpl in Hd.
  rewrite buildRelationships_loop in Hbuild. rewrite Hd.
  eapply relationship_loop_entry; [exact Hbuild| |].
  - rewrite weighted_documents. apply (ix_nodup _ _ (indexed_indexing P docsPath root)).
  - rewrite <- Hd. apply (map_get_in _ _ String.eqb String.eqb_eq). exact Hget.
Qed.

(** C6: in an index that [buildIndex] completed, two distinct documents
    whose categories are one and the same non-empty string are in each
    other's relationship set. *)
Theorem shared_category_edges_symmetric :
  forall P docsPath root prev idx p1 d1 p2 d2 c,
    buildIndex P docsPath root prev = (Ok tt, idx) ->
    getDocument idx p1 = Some d1 ->
    getDocument idx p2 = Some d2 ->
    p1 <> p2 ->
    category d1 = JStr c -> category d2 = JStr c -> c <> "" ->
    (exists rel, map_get String.eqb p1 (relationships idx) = Some rel /\ In p2 rel) /\
    (exists rel, map_get String.eqb p2 (relationships idx) = Some rel /\ In p1 rel).
Proof.
  intros P docsPath root prev idx p1 d1 p2 d2 c Hbuild H1 H2 Hne Hc1 Hc2 Hc.
  assert (Htruthy : Js.truthy (JStr c) = true).
  { simpl. destruct (c =? "") eqn:E; [|reflexivity].
    apply String.eqb_eq in E. contradiction. }
  assert (Hsame : Js.strictEquals false (JStr c) (JStr c) = true).
  { simpl. apply String.eqb_refl. }
  destruct (@built_relationships _ _ _ _ _ _ _ Hbuild H1) as [rel1 [Hr1 Hg1]].
  destruct (@built_relationships _ _ _ _ _ _ _ Hbuild H2) as [rel2 [Hr2 Hg2]].
  split.
  - exists rel1. split; [exact Hg1|].
    eapply relatedOf_same_category with (otherDoc := d2); [exact Hr1| | | |].
    + apply (map_get_in _ _ String.eqb String.eqb_eq). exact H2.
    + intro Heq. apply Hne. symmetry. exact Heq.
    + rewrite Hc1. exact Htruthy.
    + rewrite Hc1, Hc2. exact Hsame.
  - exists rel2. split; [exact Hg2|].
    eapply relatedOf_same_category with (otherDoc := d1); [exact Hr2| | | |].
    + apply (map_get_in _ _ String.eqb String.eqb_eq). exact H1.
    + exact Hne.
    + rewrite Hc2. exact Htruthy.
    + rewrite Hc2, Hc1. exact Hsame.
Qed.

(** On the sample tree: the two documents of category [api]. *)
Lemma shared_category_edges_symmetric_witness :
  (exists rel,
     map_get String.eqb "api/auth.md" (relationships Corpus.apiIndex) = Some rel /\
     In "guides/login.md" rel) /\
  (exists rel,
     map_get String.eqb "guides/login.md" (relationships Corpus.apiIndex) = Some rel /\
     In "api/auth.md" rel).
Proof.
  assert (Hbuild : buildIndex Sample.platform "/docs" Corpus.api emptyIndex
                   = (Ok tt, Corpus.apiIndex)) by (vm_compute; reflexivity).
  assert (H1 : exists d, getDocument Corpus.apiIndex "api/auth.md" = Some d /\
                         category d = JStr "api")
    by (vm_compute; eexists; split; reflexivity).
  assert (H2 : exists d, getDocument Corpus.apiIndex "guides/login.md" = Some d /\
                         category d = JStr "api")
    by (vm_compute; eexists; split; reflexivity).
  destruct H1 as [d1 [H1 C1]]. destruct H2 as [d2 [H2 C2]].
  apply (@shared_category_edges_symmetric Sample.platform "/docs" Corpus.api
           emptyIndex Corpus.apiIndex "api/auth.md" d1 "guides/login.md" d2 "api"
           Hbuild H1 H2); [discriminate|exact C1|exact C2|discriminate].
Defined.

(** ** C7 and C8: the filters of [search] *)


Lemma str_strictEquals : forall same c v,
  Js.strictEquals same (JStr c) v = true -> v = JStr c.
Proof.
  intros same c v H. destruct v; simpl in H; try discriminate.
  apply String.eqb_eq in H. subst. reflexivity.
Qed.

Section SearchFacts.

Variable P : Platform.
Variable idx : DocumentIndex.
Variable queryTokens : list string.
Variable wantedCategory : option string.
Variable wantedTags : option (list string).

Lemma searchStep_keys : forall scores docPath doc scores' k,
  searchStep idx queryTokens wantedCategory wantedTags scores (docPath, doc)
    = Ok scores' ->
  In k (map fst scores') ->
  In k (map fst scores) \/
  (k = docPath /\ scored P idx queryTokens wantedCategory wantedTags docPath doc).
Proof.
  intros scores docPath doc scores' k H Hk. unfold searchStep in H.
  destruct (categoryMismatch wantedCategory doc) eqn:Ec.
  { apply Ok_inj in H. subst. left. exact Hk. }
  destruct (tagsMissing wantedTags doc) as [[|]|e] eqn:Et; cbn [rbind] in H;
    try discriminate.
  { apply Ok_inj in H. subst. left. exact Hk. }
  destruct (docScore idx queryTokens docPath doc) as [score|e] eqn:Es;
    cbn [rbind] in H; [|discriminate].
  apply Ok_inj in H. subst scores'.
  destruct (Qlt_le_dec 0 score) as [Hpos|Hle]; [|left; exact Hk].
  apply in_map_set_keys in Hk. destruct Hk as [Hk|Hk]; [left; exact Hk|].
  right. split; [exact Hk|]. repeat split; try assumption.
  exists score. split; [exact Es|exact Hpos].
Qed.

Lemma search_loop_keys : forall entries scores scores' k,
  foldRes (searchStep idx queryTokens wantedCategory wantedTags) entries scores
    = Ok scores' ->
  In k (map fst scores') ->
  In k (map fst scores) \/
  exists doc, In (k, doc) entries /\
              scored P idx queryTokens wantedCategory wantedTags k doc.
Proof.
  intros entries.
  induction entries as [|[p d] entries IH]; intros scores scores' k H Hk.
  - simpl in H. apply Ok_inj in H. subst. left. exact Hk.
  - rewrite foldRes_cons in H.
    destruct (searchStep idx queryTokens wantedCategory wantedTags scores (p, d))
      as [scores1|e] eqn:E; cbn [rbind] in H; [|discriminate].
    destruct (IH _ _ _ H Hk) as [Hin|[doc [Hin Hs]]].
    + destruct (@searchStep_keys _ _ _ _ _ E Hin) as [Hin'|[Heq Hs]].
      * left. exact Hin'.
      * subst k. right. exists d. split; [left; reflexivity|exact Hs].
    + right. exists doc. split; [right; exact Hin|exact Hs].
Qed.

End SearchFacts.

(** Every path [search] returns was given a score entry. *)
Lemma search_results_scored : forall P idx query wantedCategory wantedTags results p,
  search P idx query wantedCategory wantedTags = Ok results ->
  In p results ->
  exists doc, In (p, doc) (documents idx) /\
    scored P idx (queryTokens P query) wantedCategory wantedTags p doc.
Proof.
  intros P idx query wantedCategory wantedTags results p H Hp.
  unfold search in H.
  destruct (foldRes (searchStep idx (queryTokens P query) wantedCategory wantedTags)
              (documents idx) []) as [scores|e] eqn:E; cbn [rbind] in H;
    [|discriminate].
  apply Ok_inj in H. subst results.
  apply in_map_iff in Hp. destruct Hp as [[k sc] [Hk Hin]]. simpl in Hk. subst k.
  apply in_sortDesc in Hin.
  destruct (@search_loop_keys P idx _ _ _ _ _ _ p E) as [[]|Hdoc].
  - change p with (fst (p, sc)). apply in_map. exact Hin.
  - exact Hdoc.
Qed.




Lemma forallRes_true : forall A (p : A -> Res bool) l x,
  forallRes p l = Ok true -> In x l -> p x = Ok true.
Proof.
  intros A p l x. induction l as [|y l IH]; simpl; intros H Hin; [contradiction|].
  destruct (p y) as [[|]|e] eqn:E; cbn [rbind] in H; try discriminate.
  destruct Hin as [Heq|Hin]; [subst; exact E|exact (IH H Hin)].
Qed.

(** A tag loop that meets a tag list which is no array throws at its
    first token; without tokens the score stays 0. *)
Lemma docScore_needs_tag_array : forall idx queryTokens docPath doc score,
  docScore idx queryTokens docPath doc = Ok score ->
  0 < score ->
  match docTags doc with
  | JUndefined | JNull | JArr _ => True
  | _ => False
  end.
Proof.
  intros idx queryTokens docPath doc score H Hpos. unfold docScore in H.
  destruct (titleLower doc) as [lower|e]; cbn [rbind] in H; [|discriminate].
  destruct queryTokens as [|token rest].
  - simpl in H. destruct (map_get String.eqb docPath (tfidf idx));
      apply Ok_inj in H; subst score; discriminate Hpos.
  - rewrite foldRes_cons in H. unfold someTagContains in H at 1.
    destruct (docTags doc); try exact I; cbn [rbind] in H; discriminate H.
Qed.

(** C8: with a non-empty list [S] of required tags, every path that
    [search(q, category, S)] returns is the key of a document whose tags
    are a list that has each string of [S] among its entries. *)
Theorem search_required_tags :
  forall P idx query wantedCategory S results p,
    S <> [] ->
    search P idx query wantedCategory (Some S) = Ok results ->
    In p results ->
    exists doc items,
      In (p, doc) (documents idx) /\
      docTags doc = JArr items /\
      forall tag, In tag S -> In (JStr tag) items.
Proof.
  intros P idx query wantedCategory S results p HS Hs Hp.
  destruct (search_results_scored _ _ _ _ _ _ _ Hs Hp)
    as [doc [Hin [_ [Htags [score [Hscore Hpos]]]]]].
  pose proof (docScore_needs_tag_array _ _ _ _ _ Hscore Hpos) as Harr.
  destruct S as [|t ts]; [contradiction|].
  unfold tagsMissing in Htags.
  destruct (forallRes (fun tag => optIncludes false (docTags doc) (JStr tag)) (t :: ts))
    as [[|]|e] eqn:Eall; cbn [rbind] in Htags; try discriminate.
  destruct (docTags doc) as [| | | | |items|] eqn:Edoc; try contradiction.
  - simpl in Eall. discriminate.
  - simpl in Eall. discriminate.
  - exists doc, items. split; [exact Hin|]. split; [exact Edoc|].
    intros tag Htag.
    pose proof (forallRes_true _ _ _ tag Eall Htag) as Hinc. simpl in Hinc.
    apply Ok_inj in Hinc. apply existsb_exists in Hinc.
    destruct Hinc as [y [Hy Heq]]. apply str_strictEquals in Heq. subst y.
    exact Hy.
Qed.

(** On the sample tree: [search('login', undefined, ['security'])]. *)
Lemma search_required_tags_witness :
  exists doc items,
    In ("api/auth.md", doc) (documents Corpus.apiIndex) /\
    docTags doc = JArr items /\
    forall tag, In tag ["security"] -> In (JStr tag) items.
Proof.
  apply (@search_required_tags Sample.platform Corpus.apiIndex "login" None
           ["security"] ["api/auth.md"] "api/auth.md").
  - discriminate.
  - vm_compute. reflexivity.
  - left. reflexivity.
Defined.

(** ** C9: scores and query tokens *)





Section ScoreFacts.

Variable idx : DocumentIndex.
Variable docPath : string.
Variable doc : Document.







End ScoreFacts.




(** ** C10: [getDocument] *)


(** On the sample tree: the stored key is found, the same file under a
    [./] prefix or under its absolute path is not. *)
Example getDocument_applies_no_normalization :
  (exists doc, getDocument Corpus.apiIndex "api/auth.md" = Some doc) /\
  getDocument Corpus.apiIndex "./api/auth.md" = None /\
  getDocument Corpus.apiIndex "/docs/api/auth.md" = None.
Proof.
  vm_compute. split; [eexists; reflexivity|split; reflexivity].
Qed.

(** * Further properties of the indexer *)

(** ** [indexDocument] as a function *)

Section IndexingPassFacts.

Variable P : Platform.
Variable docsPath : string.

Lemma indexKeywords_run : forall doc s,
  indexKeywords P doc s =
  (Ok tt, fold_left (registerToken (path doc))
            (tokenize P (Str.toLowerCase (docText doc))) s).
Proof.
  intros doc s. unfold indexKeywords.
  generalize (tokenize P (Str.toLowerCase (docText doc))) as tokens.
  intro tokens. revert s.
  induction tokens as [|token tokens IH]; intro s; [reflexivity|].
  rewrite forEach_cons. simpl fold_left. unfold registerToken at 2.
  destruct (2 <? String.length token)%nat; simpl; apply IH.
Qed.

Lemma indexDocument_run : forall file s,
  indexDocument P docsPath file s = (Ok tt, addFile P docsPath s file).
Proof.
  intros file s. unfold indexDocument, addFile, tryCatch.
  unfold bind at 1. unfold lift at 1.
  destruct (readFile file) as [contents|]; [|reflexivity].
  unfold bind at 1. unfold lift at 1.
  destruct (stat file) as [mtimeMs|]; [|reflexivity].
  unfold bind at 1. unfold lift at 1.
  destruct (matter P contents) as [parsed|]; [|reflexivity].
  fold (documentOf P docsPath file contents mtimeMs parsed).
  generalize (documentOf P docsPath file contents mtimeMs parsed) as doc.
  intro doc. unfold addDocument, bind, lift, modify.
  rewrite indexKeywords_run.
  generalize (fold_left (registerToken (path doc))
                (tokenize P (Str.toLowerCase (docText doc)))
                (setDocument doc s)) as s2.
  intro s2. unfold registerCategory, registerTags, when, ret.
  destruct (Js.truthy (category doc)); destruct (Js.truthy (docTags doc));
    try reflexivity;
    (destruct (Js.iterate (docTags doc)) as [tagList|e]; [|reflexivity];
     rewrite (forEach_modify _ tagList (fun tag => addTag tag (path doc)));
     reflexivity).
Qed.

Lemma indexing_loop_run : forall files s,
  forEach files (indexDocument P docsPath) s =
  (Ok tt, fold_left (addFile P docsPath) files s).
Proof.
  intros files. induction files as [|file files IH]; intro s; [reflexivity|].
  rewrite forEach_cons, indexDocument_run. apply IH.
Qed.

Lemma indexed_fold : forall root,
  indexed P docsPath root =
  fold_left (addFile P docsPath) (findMarkdownFiles P docsPath root) emptyIndex.
Proof. intro root. unfold indexed. rewrite indexing_loop_run. reflexivity. Qed.

End IndexingPassFacts.

(** ** Buckets of the inverted maps *)

Section BucketFacts.

Variable K : Type.
Variable keq : K -> K -> bool.

Lemma map_get_set_hit : forall k (v : list string) m,
  keq k k = true -> map_get keq k (map_set keq k v m) = Some v.
Proof.
  intros k v m Hk. induction m as [|[k0 v0] m IH]; simpl.
  - rewrite Hk. reflexivity.
  - destruct (keq k k0) eqn:E; simpl; rewrite E; [reflexivity|exact IH].
Qed.

Lemma map_get_set_grows : forall k k' (v : list string) m ps,
  (forall b, map_get keq k' m = Some b -> incl b v) ->
  map_get keq k m = Some ps ->
  exists ps', map_get keq k (map_set keq k' v m) = Some ps' /\ incl ps ps'.
Proof.
  intros k k' v m. induction m as [|[k0 v0] m IH]; intros ps Hb Hget.
  - discriminate Hget.
  - simpl in Hget, Hb. simpl. destruct (keq k' k0) eqn:E'.
    + simpl. destruct (keq k k0) eqn:E.
      * exists v. split; [reflexivity|].
        inversion Hget. subst ps. apply Hb. reflexivity.
      * exists ps. split; [exact Hget|apply incl_refl].
    + simpl. destruct (keq k k0) eqn:E.
      * exists ps. split; [exact Hget|apply incl_refl].
      * apply IH; assumption.
Qed.

Lemma listed_addToBucket_keeps : forall k k' x p m,
  listed keq k p m -> listed keq k p (addToBucket keq k' x m).
Proof.
  intros k k' x p m [ps [Hget Hin]]. unfold addToBucket.
  destruct (map_get keq k' m) as [b|] eqn:Eb.
  - destruct (map_get_set_grows k k' (set_add String.eqb x b) m ps) as [ps' [H1 H2]].
    + intros b' Hb'. rewrite Eb in Hb'. inversion Hb'. subst b'. intros y Hy.
      apply (in_set_add _ String.eqb String.eqb_eq). right. exact Hy.
    + exact Hget.
    + exists ps'. split; [exact H1|apply H2, Hin].
  - destruct (map_get_set_grows k k' (set_add String.eqb x []) m ps) as [ps' [H1 H2]].
    + intros b' Hb'. rewrite Eb in Hb'. discriminate Hb'.
    + exact Hget.
    + exists ps'. split; [exact H1|apply H2, Hin].
Qed.

Lemma listed_addToBucket_new : forall k x m,
  keq k k = true -> listed keq k x (addToBucket keq k x m).
Proof.
  intros k x m Hk. unfold addToBucket, listed.
  destruct (map_get keq k m) as [b|]; rewrite (map_get_set_hit _ _ _ Hk);
    eexists; (split; [reflexivity|]);
    apply (in_set_add _ String.eqb String.eqb_eq); left; reflexivity.
Qed.

Lemma map_get_entry : forall k (m : list (K * list string)) b,
  map_get keq k m = Some b -> exists k0, In (k0, b) m.
Proof.
  intros k m b. induction m as [|[k0 v0] m IH]; simpl; [discriminate|].
  destruct (keq k k0).
  - intro H. inversion H. subst. exists k0. left. reflexivity.
  - intro H. destruct (IH H) as [k1 H1]. exists k1. right. exact H1.
Qed.

Lemma in_map_set_value : forall k (v : list string) m k1 ps,
  In (k1, ps) (map_set keq k v m) -> ps = v \/ In (k1, ps) m.
Proof.
  intros k v m k1 ps. induction m as [|[k0 v0] m IH]; simpl.
  - intros [H|[]]. inversion H. left. reflexivity.
  - destruct (keq k k0); simpl.
    + intros [H|H]; [inversion H; left; reflexivity|right; right; exact H].
    + intros [H|H]; [right; left; exact H|].
      destruct (IH H) as [H'|H']; [left; exact H'|right; right; exact H'].
Qed.

(** The paths listed anywhere in a map. *)
Lemma in_paths_addToBucket : forall k x m p,
  In p (List.concat (map snd (addToBucket keq k x m))) ->
  p = x \/ In p (List.concat (map snd m)).
Proof.
  intros k x m p Hp. apply in_concat in Hp. destruct Hp as [ps [Hps Hp]].
  apply in_map_iff in Hps. destruct Hps as [[k1 ps1] [Heq Hin]].
  simpl in Heq. subst ps1. unfold addToBucket in Hin.
  destruct (map_get keq k m) as [b|] eqn:Eb;
    apply in_map_set_value in Hin; destruct Hin as [Hv|Hin].
  - subst ps. apply (in_set_add _ String.eqb String.eqb_eq) in Hp.
    destruct Hp as [Hp|Hp]; [left; exact Hp|right].
    destruct (map_get_entry _ _ _ Eb) as [k0 Hk0].
    apply in_concat. exists b. split; [|exact Hp].
    apply in_map_iff. exists (k0, b). split; [reflexivity|exact Hk0].
  - right. apply in_concat. exists ps. split; [|exact Hp].
    apply in_map_iff. exists (k1, ps). split; [reflexivity|exact Hin].
  - subst ps. apply (in_set_add _ String.eqb String.eqb_eq) in Hp.
    destruct Hp as [Hp|[]]. left. exact Hp.
  - right. apply in_concat. exists ps. split; [|exact Hp].
    apply in_map_iff. exists (k1, ps). split; [reflexivity|exact Hin].
Qed.

Lemma listed_in_paths : forall k p (m : list (K * list string)),
  listed keq k p m -> In p (List.concat (map snd m)).
Proof.
  intros k p m [ps [Hget Hin]]. destruct (map_get_entry _ _ _ Hget) as [k0 Hk0].
  apply in_concat. exists ps. split; [|exact Hin].
  apply in_map_iff. exists (k0, ps). split; [reflexivity|exact Hk0].
Qed.

(** No bucket is empty. *)
Lemma addToBucket_nonempty : forall k x m,
  Forall (fun e => snd e <> []) m ->
  Forall (fun e => snd e <> []) (addToBucket keq k x m).
Proof.
  intros k x m Hm. apply Forall_forall. intros [k1 ps] Hin. simpl.
  unfold addToBucket in Hin.
  assert (Hne : forall b, set_add String.eqb x b <> []).
  { intros b Hb.
    assert (Hx : In x (set_add String.eqb x b))
      by (apply (in_set_add _ String.eqb String.eqb_eq); left; reflexivity).
    rewrite Hb in Hx. exact Hx. }
  rewrite Forall_forall in Hm.
  destruct (map_get keq k m); apply in_map_set_value in Hin;
    (destruct Hin as [Hv|Hin]; [subst ps; apply Hne|exact (Hm _ Hin)]).
Qed.

End BucketFacts.

(** ** What [indexDocument] adds *)

Section AddDocumentFacts.

Variable P : Platform.
Variable docPath : string.

Lemma registerTokens_frame : forall tokens s,
  let s' := fold_left (registerToken docPath) tokens s in
  documents s' = documents s /\ categories s' = categories s /\
  tags s' = tags s /\ tfidf s' = tfidf s /\ relationships s' = relationships s.
Proof.
  intros tokens. induction tokens as [|token tokens IH]; intro s; simpl.
  - repeat split.
  - destruct (IH (registerToken docPath s token)) as [H1 [H2 [H3 [H4 H5]]]].
    simpl in *. rewrite H1, H2, H3, H4, H5. unfold registerToken.
    destruct (2 <? String.length token)%nat; repeat split.
Qed.

Lemma registerToken_keeps : forall s token k q,
  listed String.eqb k q (keywords s) ->
  listed String.eqb k q (keywords (registerToken docPath s token)).
Proof.
  intros s token k q H. unfold registerToken.
  destruct (2 <? String.length token)%nat; [|exact H].
  simpl. apply listed_addToBucket_keeps. exact H.
Qed.

Lemma registerTokens_keeps : forall tokens s k q,
  listed String.eqb k q (keywords s) ->
  listed String.eqb k q (keywords (fold_left (registerToken docPath) tokens s)).
Proof.
  intros tokens. induction tokens as [|token tokens IH]; intros s k q H; simpl.
  - exact H.
  - apply IH, registerToken_keeps, H.
Qed.

Lemma registerTokens_lists : forall tokens s token,
  In token tokens -> (2 < String.length token)%nat ->
  listed String.eqb token docPath
    (keywords (fold_left (registerToken docPath) tokens s)).
Proof.
  intros tokens. induction tokens as [|t tokens IH]; intros s token Hin Hlen.
  - contradiction.
  - simpl. destruct Hin as [Heq|Hin].
    + subst t. apply registerTokens_keeps. unfold registerToken.
      apply Nat.ltb_lt in Hlen. rewrite Hlen. simpl.
      apply listed_addToBucket_new. apply String.eqb_refl.
    + apply IH; assumption.
Qed.

Lemma registerTokens_paths : forall tokens s q,
  In q (listedPaths (keywords (fold_left (registerToken docPath) tokens s))) ->
  q = docPath \/ In q (listedPaths (keywords s)).
Proof.
  intros tokens. induction tokens as [|t tokens IH]; intros s q H; simpl in H.
  - right. exact H.
  - destruct (IH _ _ H) as [Hq|Hq]; [left; exact Hq|].
    unfold registerToken in Hq. destruct (2 <? String.length t)%nat.
    + simpl in Hq. apply in_paths_addToBucket in Hq. exact Hq.
    + right. exact Hq.
Qed.

Lemma addTags_frame : forall tagList s,
  let s' := fold_left (fun s0 tag => addTag tag docPath s0) tagList s in
  documents s' = documents s /\ keywords s' = keywords s /\
  categories s' = categories s /\ tfidf s' = tfidf s /\
  relationships s' = relationships s.
Proof.
  intros tagList. induction tagList as [|tag tagList IH]; intro s; simpl.
  - repeat split.
  - destruct (IH (addTag tag docPath s)) as [H1 [H2 [H3 [H4 H5]]]].
    simpl in *. rewrite H1, H2, H3, H4, H5. repeat split.
Qed.

Lemma addTags_keeps : forall tagList s k q,
  listed (Js.strictEquals false) k q (tags s) ->
  listed (Js.strictEquals false) k q
    (tags (fold_left (fun s0 tag => addTag tag docPath s0) tagList s)).
Proof.
  intros tagList. induction tagList as [|tag tagList IH]; intros s k q H; simpl.
  - exact H.
  - apply IH. simpl. apply listed_addToBucket_keeps. exact H.
Qed.

Lemma addTags_lists : forall tagList s tag,
  In tag tagList -> primitive tag ->
  listed (Js.strictEquals false) tag docPath
    (tags (fold_left (fun s0 t => addTag t docPath s0) tagList s)).
Proof.
  intros tagList. induction tagList as [|t tagList IH]; intros s tag Hin Hp.
  - contradiction.
  - simpl. destruct Hin as [Heq|Hin].
    + subst t. apply addTags_keeps. simpl.
      apply listed_addToBucket_new. exact Hp.
    + apply IH; assumption.
Qed.

Lemma addTags_paths : forall tagList s q,
  In q (listedPaths (tags (fold_left (fun s0 t => addTag t docPath s0) tagList s))) ->
  q = docPath \/ In q (listedPaths (tags s)).
Proof.
  intros tagList. induction tagList as [|t tagList IH]; intros s q H; simpl in H.
  - right. exact H.
  - destruct (IH _ _ H) as [Hq|Hq]; [left; exact Hq|].
    simpl in Hq. apply in_paths_addToBucket in Hq. exact Hq.
Qed.

Lemma addTags_buckets : forall tagList s,
  Forall (fun e => snd e <> []) (tags s) ->
  Forall (fun e => snd e <> [])
    (tags (fold_left (fun s0 t => addTag t docPath s0) tagList s)).
Proof.
  intros tagList. induction tagList as [|t tagList IH]; intros s H; simpl.
  - exact H.
  - apply IH. simpl. apply addToBucket_nonempty. exact H.
Qed.

End AddDocumentFacts.

Section RegisterFacts.

Variable P : Platform.
Variable doc : Document.

Lemma registerTags_frame : forall s,
  let s' := registerTags doc s in
  documents s' = documents s /\ keywords s' = keywords s /\
  categories s' = categories s /\ tfidf s' = tfidf s /\
  relationships s' = relationships s.
Proof.
  intro s. unfold registerTags.
  destruct (Js.truthy (docTags doc)); [|repeat split].
  destruct (Js.iterate (docTags doc)) as [tagList|e]; [|repeat split].
  apply addTags_frame.
Qed.

Lemma registerTags_keeps : forall s k q,
  listed (Js.strictEquals false) k q (tags s) ->
  listed (Js.strictEquals false) k q (tags (registerTags doc s)).
Proof.
  intros s k q H. unfold registerTags.
  destruct (Js.truthy (docTags doc)); [|exact H].
  destruct (Js.iterate (docTags doc)) as [tagList|e]; [|exact H].
  apply addTags_keeps. exact H.
Qed.

Lemma registerTags_lists : forall s items tag,
  Js.truthy (docTags doc) = true -> Js.iterate (docTags doc) = Ok items ->
  In tag items -> primitive tag ->
  listed (Js.strictEquals false) tag (path doc) (tags (registerTags doc s)).
Proof.
  intros s items tag Ht Hit Hin Hp. unfold registerTags. rewrite Ht, Hit.
  apply addTags_lists; assumption.
Qed.

Lemma registerTags_paths : forall s q,
  In q (listedPaths (tags (registerTags doc s))) ->
  q = path doc \/ In q (listedPaths (tags s)).
Proof.
  intros s q H. unfold registerTags in H.
  destruct (Js.truthy (docTags doc)); [|right; exact H].
  destruct (Js.iterate (docTags doc)) as [tagList|e]; [|right; exact H].
  apply addTags_paths in H. exact H.
Qed.

Lemma registerTags_buckets : forall s,
  Forall (fun e => snd e <> []) (tags s) ->
  Forall (fun e => snd e <> []) (tags (registerTags doc s)).
Proof.
  intros s H. unfold registerTags.
  destruct (Js.truthy (docTags doc)); [|exact H].
  destruct (Js.iterate (docTags doc)) as [tagList|e]; [|exact H].
  apply addTags_buckets. exact H.
Qed.

Lemma addDocument_documents : forall s,
  documents (addDocument P doc s) =
  map_set String.eqb (path doc) doc (documents s).
Proof.
  intro s. unfold addDocument.
  destruct (registerTags_frame
              (registerCategory doc
                 (fold_left (registerToken (path doc))
                    (tokenize P (Str.toLowerCase (docText doc)))
                    (setDocument doc s)))) as [H _].
  rewrite H. unfold registerCategory.
  destruct (registerTokens_frame (path doc)
              (tokenize P (Str.toLowerCase (docText doc)))
              (setDocument doc s)) as [H1 _].
  destruct (Js.truthy (category doc)); simpl; rewrite H1; reflexivity.
Qed.

Lemma addDocument_keywords : forall s,
  keywords (addDocument P doc s) =
  keywords (fold_left (registerToken (path doc))
              (tokenize P (Str.toLowerCase (docText doc)))
              (setDocument doc s)).
Proof.
  intro s. unfold addDocument.
  destruct (registerTags_frame
              (registerCategory doc
                 (fold_left (registerToken (path doc))
                    (tokenize P (Str.toLowerCase (docText doc)))
                    (setDocument doc s)))) as [_ [H _]].
  rewrite H. unfold registerCategory.
  destruct (Js.truthy (category doc)); reflexivity.
Qed.

Lemma addDocument_categories : forall s,
  categories (addDocument P doc s) =
  if Js.truthy (category doc)
  then addToBucket (Js.strictEquals false) (category doc) (path doc) (categories s)
  else categories s.
Proof.
  intro s. unfold addDocument.
  destruct (registerTags_frame
              (registerCategory doc
                 (fold_left (registerToken (path doc))
                    (tokenize P (Str.toLowerCase (docText doc)))
                    (setDocument doc s)))) as [_ [_ [H _]]].
  rewrite H. unfold registerCategory.
  destruct (registerTokens_frame (path doc)
              (tokenize P (Str.toLowerCase (docText doc)))
              (setDocument doc s)) as [_ [H1 _]].
  destruct (Js.truthy (category doc)); simpl; rewrite H1; reflexivity.
Qed.

Lemma addDocument_tags : forall s,
  exists s3, tags s3 = tags s /\
             tags (addDocument P doc s) = tags (registerTags doc s3).
Proof.
  intro s. unfold addDocument.
  exists (registerCategory doc
            (fold_left (registerToken (path doc))
               (tokenize P (Str.toLowerCase (docText doc)))
               (setDocument doc s))).
  split; [|reflexivity]. unfold registerCategory.
  destruct (registerTokens_frame (path doc)
              (tokenize P (Str.toLowerCase (docText doc)))
              (setDocument doc s)) as [_ [_ [H1 _]]].
  destruct (Js.truthy (category doc)); simpl; rewrite H1; reflexivity.
Qed.

End RegisterFacts.

(** [registerTags] reads the tags of the index only. *)
Lemma registerTags_tags_only : forall doc s s',
  tags s = tags s' -> tags (registerTags doc s) = tags (registerTags doc s').
Proof.
  intros doc s s' H. unfold registerTags.
  destruct (Js.truthy (docTags doc)); [|exact H].
  destruct (Js.iterate (docTags doc)) as [tagList|e]; [|exact H].
  revert s s' H. induction tagList as [|t tagList IH]; intros s s' H; simpl.
  - exact H.
  - apply IH. simpl. rewrite H. reflexivity.
Qed.

(** ** The indexing pass keeps the index coherent *)

Section CoherenceFacts.

Variable P : Platform.
Variable docsPath : string.
Variable files : list FoundFile.

Lemma in_documents_after : forall doc s q d,
  In (q, d) (documents (addDocument P doc s)) ->
  In (q, d) (documents s) \/ (q = path doc /\ d = doc).
Proof.
  intros doc s q d H. rewrite addDocument_documents in H.
  apply (in_map_set _ _ String.eqb String.eqb_eq) in H. exact H.
Qed.

Lemma keys_after : forall doc s q,
  q = path doc \/ In q (map fst (documents s)) ->
  In q (map fst (documents (addDocument P doc s))).
Proof.
  intros doc s q H. rewrite addDocument_documents.
  apply in_map_set_keys. tauto.
Qed.

Lemma addDocument_coherent : forall doc s,
  (exists file, In file files /\ yields P docsPath file doc) ->
  Coherent P docsPath files s ->
  Coherent P docsPath files (addDocument P doc s).
Proof.
  intros doc s Hfile [Hsrc Hkw Hcat Htag Hkp Hcp Htp Hcb Htb].
  destruct (addDocument_tags P doc s) as [s3 [Hs3 Htags]].
  constructor.
  - intros p d Hin. apply in_documents_after in Hin.
    destruct Hin as [Hin|[Hp Hd]]; [apply Hsrc, Hin|].
    subst. split; [reflexivity|exact Hfile].
  - intros p d token Hin Htok Hlen. rewrite addDocument_keywords.
    apply in_documents_after in Hin. destruct Hin as [Hin|[Hp Hd]].
    + apply registerTokens_keeps. simpl. apply (Hkw p d); assumption.
    + subst. apply registerTokens_lists; assumption.
  - intros p d Hin Ht Hp. rewrite addDocument_categories.
    apply in_documents_after in Hin. destruct Hin as [Hin|[Hq Hd]].
    + specialize (Hcat p d Hin Ht Hp).
      destruct (Js.truthy (category doc)); [|exact Hcat].
      apply listed_addToBucket_keeps. exact Hcat.
    + subst. rewrite Ht. apply listed_addToBucket_new. exact Hp.
  - intros p d items tag Hin Hd Hit Htg Hp. rewrite Htags.
    apply in_documents_after in Hin. destruct Hin as [Hin|[Hq Hdoc]].
    + apply registerTags_keeps. rewrite Hs3. apply (Htag p d items); assumption.
    + subst. apply (registerTags_lists _ _ items); assumption.
  - intros q Hq. rewrite addDocument_keywords in Hq.
    apply registerTokens_paths in Hq. apply keys_after.
    destruct Hq as [Hq|Hq]; [left; exact Hq|right; apply Hkp, Hq].
  - intros q Hq. rewrite addDocument_categories in Hq. apply keys_after.
    destruct (Js.truthy (category doc)).
    + apply in_paths_addToBucket in Hq.
      destruct Hq as [Hq|Hq]; [left; exact Hq|right; apply Hcp, Hq].
    + right. apply Hcp, Hq.
  - intros q Hq. rewrite Htags in Hq. apply registerTags_paths in Hq.
    apply keys_after. rewrite Hs3 in Hq.
    destruct Hq as [Hq|Hq]; [left; exact Hq|right; apply Htp, Hq].
  - rewrite addDocument_categories.
    destruct (Js.truthy (category doc)); [|exact Hcb].
    apply addToBucket_nonempty. exact Hcb.
  - rewrite Htags. apply registerTags_buckets. rewrite Hs3. exact Htb.
Qed.

Lemma addFile_coherent : forall file s,
  In file files ->
  Coherent P docsPath files s ->
  Coherent P docsPath files (addFile P docsPath s file).
Proof.
  intros file s Hin Hs. unfold addFile.
  destruct (readFile file) as [contents|] eqn:Er; [|exact Hs].
  destruct (stat file) as [mtimeMs|] eqn:Es; [|exact Hs].
  destruct (matter P contents) as [parsed|] eqn:Em; [|exact Hs].
  apply addDocument_coherent; [|exact Hs].
  exists file. split; [exact Hin|].
  exists contents, mtimeMs, parsed. repeat split; assumption.
Qed.

Lemma addFiles_coherent : forall some s,
  incl some files ->
  Coherent P docsPath files s ->
  Coherent P docsPath files (fold_left (addFile P docsPath) some s).
Proof.
  intros some. induction some as [|file some IH]; intros s Hincl Hs; simpl.
  - exact Hs.
  - apply IH.
    + intros f Hf. apply Hincl. right. exact Hf.
    + apply addFile_coherent; [apply Hincl; left; reflexivity|exact Hs].
Qed.

Lemma emptyIndex_coherent : Coherent P docsPath files emptyIndex.
Proof.
  constructor; simpl; try (intros; contradiction); try constructor.
  - intros q [].
  - intros q [].
  - intros q [].
Qed.

End CoherenceFacts.

Lemma indexed_coherent : forall P docsPath root,
  Coherent P docsPath (findMarkdownFiles P docsPath root)
    (indexed P docsPath root).
Proof.
  intros P docsPath root. rewrite indexed_fold.
  apply addFiles_coherent; [apply incl_refl|apply emptyIndex_coherent].
Qed.

(** ** The index a build leaves *)

Lemma buildRelationships_frame_buckets : forall P docsPath s,
  let s' := snd (buildRelationships P docsPath s) in
  categories s' = categories s /\ tags s' = tags s.
Proof.
  intros P docsPath s.
  apply (@preserves_bind
           (fun s' => categories s' = categories s /\ tags s' = tags s)).
  - apply preserves_getIndex.
  - intro s0. apply preserves_forEach. intros [p d] _.
    apply preserves_bind; [apply preserves_lift|]. intro rel.
    apply preserves_modify. intros s1 H. exact H.
  - split; reflexivity.
Qed.

Lemma built_maps : forall P docsPath root prev,
  let idx := snd (buildIndex P docsPath root prev) in
  documents idx = documents (indexed P docsPath root) /\
  keywords idx = keywords (indexed P docsPath root) /\
  categories idx = categories (indexed P docsPath root) /\
  tags idx = tags (indexed P docsPath root).
Proof.
  intros P docsPath root prev. simpl. rewrite buildIndex_phases.
  destruct (buildRelationships_frame P docsPath (weighted P docsPath root))
    as [Hd [Hk _]].
  destruct (buildRelationships_frame_buckets P docsPath (weighted P docsPath root))
    as [Hc Ht].
  rewrite Hd, Hk, Hc, Ht, weighted_documents, weighted_keywords.
  unfold weighted. rewrite buildTfIdfIndex_run. repeat split.
Qed.

Lemma built_coherent : forall P docsPath root prev,
  Coherent P docsPath (findMarkdownFiles P docsPath root)
    (snd (buildIndex P docsPath root prev)).
Proof.
  intros P docsPath root prev.
  destruct (built_maps P docsPath root prev) as [Hd [Hk [Hc Ht]]].
  destruct (indexed_coherent P docsPath root)
    as [Hsrc Hkw Hcat Htag Hkp Hcp Htp Hcb Htb].
  constructor; rewrite ?Hd, ?Hk, ?Hc, ?Ht; assumption.
Qed.


Lemma built_getDocument : forall P docsPath root prev p,
  In p (map fst (documents (snd (buildIndex P docsPath root prev)))) ->
  exists d, getDocument (snd (buildIndex P docsPath root prev)) p = Some d.
Proof.
  intros P docsPath root prev p Hin. unfold getDocument.
  destruct (map_get String.eqb p
              (documents (snd (buildIndex P docsPath root prev)))) as [d|] eqn:E.
  - exists d. reflexivity.
  - apply (map_get_none _ _ String.eqb String.eqb_eq) in E. contradiction.
Qed.

(** Keys of the documents map only grow during the pass. *)
Lemma addFile_keeps_keys : forall P docsPath s file q,
  In q (map fst (documents s)) ->
  In q (map fst (documents (addFile P docsPath s file))).
Proof.
  intros P docsPath s file q H. unfold addFile.
  destruct (readFile file) as [contents|]; [|exact H].
  destruct (stat file); [|exact H].
  destruct (matter P contents); [|exact H].
  apply keys_after. right. exact H.
Qed.

Lemma addFiles_keep_keys : forall P docsPath files s q,
  In q (map fst (documents s)) ->
  In q (map fst (documents (fold_left (addFile P docsPath) files s))).
Proof.
  intros P docsPath files. induction files as [|f files IH]; intros s q H; simpl.
  - exact H.
  - apply IH, addFile_keeps_keys, H.
Qed.

Lemma addFiles_store_readable : forall P docsPath files s file doc,
  In file files -> yields P docsPath file doc ->
  In (getRelativePath P docsPath (fullPath file))
    (map fst (documents (fold_left (addFile P docsPath) files s))).
Proof.
  intros P docsPath files.
  induction files as [|f files IH]; intros s file doc Hin Hy; [contradiction|].
  simpl. destruct Hin as [Heq|Hin].
  - subst f. apply addFiles_keep_keys.
    destruct Hy as [c [t [parsed [Hr [Hs [Hm Hd]]]]]].
    unfold addFile. rewrite Hr, Hs, Hm. apply keys_after. left. reflexivity.
  - apply (IH _ file doc); assumption.
Qed.

(** ** Sorting *)

Section SortOrderFacts.

Variable A : Type.
Variable before : A -> A -> bool.

(** [notAfter a b]: the sort may leave [a] in front of [b]. *)
Let notAfter (a b : A) : Prop := before b a = false.

Hypothesis before_asym : forall a b, before a b = true -> before b a = false.

Lemma insertDesc_perm : forall x l, Permutation (insertDesc before x l) (x :: l).
Proof.
  intros x l. induction l as [|y l IH]; simpl.
  - apply Permutation_refl.
  - destruct (before y x).
    + eapply perm_trans; [apply perm_skip, IH|apply perm_swap].
    + apply Permutation_refl.
Qed.

Lemma sortDesc_perm : forall l, Permutation (sortDesc before l) l.
Proof.
  intro l. induction l as [|x l IH]; simpl.
  - apply perm_nil.
  - eapply perm_trans; [apply insertDesc_perm|apply perm_skip, IH].
Qed.

Lemma insertDesc_sorted : forall x l,
  Sorted notAfter l -> Sorted notAfter (insertDesc before x l).
Proof.
  intros x l Hl. induction l as [|y l IH]; simpl.
  - constructor; constructor.
  - destruct (before y x) eqn:E.
    + inversion Hl as [|? ? Hs Hh]; subst. constructor; [apply IH, Hs|].
      destruct l as [|z l]; simpl.
      * constructor. unfold notAfter. apply before_asym, E.
      * destruct (before z x); constructor.
        -- inversion Hh; assumption.
        -- unfold notAfter. apply before_asym, E.
    + constructor; [exact Hl|]. constructor. exact E.
Qed.

Lemma sortDesc_sorted : forall l, Sorted notAfter (sortDesc before l).
Proof.
  intro l. induction l as [|x l IH]; simpl.
  - constructor.
  - apply insertDesc_sorted, IH.
Qed.

End SortOrderFacts.

Lemma higher_asym : forall (a b : string * Q),
  higher a b = true -> higher b a = false.
Proof.
  intros a b. unfold higher.
  destruct (Qlt_le_dec (snd b) (snd a)) as [H|H]; [|discriminate].
  intros _. destruct (Qlt_le_dec (snd a) (snd b)) as [H'|H']; [|reflexivity].
  exfalso. apply (Qlt_irrefl (snd a)). eapply Qlt_trans; eassumption.
Qed.

Lemma higherZ_asym : forall a b, higherZ a b = true -> higherZ b a = false.
Proof.
  intros a b. unfold higherZ. intro H. apply Z.ltb_lt in H.
  apply Z.ltb_ge. lia.
Qed.

Lemma stringBefore_asym : forall a b,
  stringBefore a b = true -> stringBefore b a = false.
Proof.
  intros a b. unfold stringBefore, String.ltb.
  rewrite (String.compare_antisym (Js.toStr b) (Js.toStr a)).
  destruct (String.compare (Js.toStr a) (Js.toStr b)); simpl;
    intro H; try discriminate; reflexivity.
Qed.

(** ** What [buildRelationships] puts into a set *)

Section EdgeFacts.

Variable P : Platform.
Variable docsPath : string.
Variable docs : list (string * Document).

Lemma in_addIfDocument : forall p rel x,
  In x (addIfDocument docs p rel) <->
  In x rel \/ (x = p /\ map_has String.eqb p docs = true).
Proof.
  intros p rel x. unfold addIfDocument.
  destruct (map_has String.eqb p docs).
  - rewrite (in_set_add _ String.eqb String.eqb_eq). tauto.
  - split; [tauto|]. intros [H|[_ H]]; [exact H|discriminate].
Qed.

Lemma explicit_loop_edges : forall items rel0 rel x,
  foldRes (fun acc r =>
             rbind (normalizePathOf P docsPath r)
               (fun normalizedRel => Ok (addIfDocument docs normalizedRel acc)))
    items rel0 = Ok rel ->
  (In x rel <->
   In x rel0 \/
   exists r, In r items /\ normalizePathOf P docsPath r = Ok x /\
             map_has String.eqb x docs = true).
Proof.
  intros items. induction items as [|r items IH]; intros rel0 rel x H.
  - simpl in H. apply Ok_inj in H. subst. split; [tauto|].
    intros [H|[r [[] _]]]. exact H.
  - rewrite foldRes_cons in H.
    destruct (normalizePathOf P docsPath r) as [n|e] eqn:En;
      cbn [rbind] in H; [|discriminate].
    rewrite (IH _ _ x H), in_addIfDocument. split.
    + intros [[Hx|[Hx Hd]]|[r' [Hr' Hn]]].
      * left. exact Hx.
      * right. exists r. subst n. split; [left; reflexivity|split; assumption].
      * right. exists r'. split; [right; exact Hr'|exact Hn].
    + intros [Hx|[r' [[Heq|Hr'] [Hn Hd]]]].
      * left. left. exact Hx.
      * subst r'. rewrite En in Hn. apply Ok_inj in Hn. subst n.
        left. right. split; [reflexivity|exact Hd].
      * right. exists r'. split; [exact Hr'|split; assumption].
Qed.

Lemma explicitRelated_edges : forall doc rel0 rel x,
  explicitRelated P docsPath docs doc rel0 = Ok rel ->
  (In x rel <-> In x rel0 \/ declaresRelated P docsPath docs doc x).
Proof.
  intros doc rel0 rel x H. unfold explicitRelated in H. unfold declaresRelated.
  destruct (Js.truthy (related doc)) eqn:Et.
  - destruct (Js.iterate (related doc)) as [items|e] eqn:Ei;
      cbn [rbind] in H; [|discriminate].
    rewrite (explicit_loop_edges _ _ _ x H). split.
    + intros [Hx|[r [Hr Hn]]]; [left; exact Hx|].
      right. split; [reflexivity|]. exists items, r. tauto.
    + intros [Hx|[_ [items' [r [Hi [Hr Hn]]]]]]; [left; exact Hx|].
      apply Ok_inj in Hi. subst items'. right. exists r. tauto.
  - apply Ok_inj in H. subst. split; [tauto|].
    intros [Hx|[Hf _]]; [exact Hx|discriminate].
Qed.

Lemma in_cond_add_iff : forall (b : bool) p rel x,
  In x (if b then set_add String.eqb p rel else rel) <->
  In x rel \/ (b = true /\ x = p).
Proof.
  intros b p rel x. destruct b.
  - rewrite (in_set_add _ String.eqb String.eqb_eq). tauto.
  - split; [tauto|]. intros [H|[H _]]; [exact H|discriminate].
Qed.

Lemma implicitStep_edges : forall docPath doc rel otherPath otherDoc rel' x,
  implicitStep docPath doc rel (otherPath, otherDoc) = Ok rel' ->
  (In x rel' <->
   In x rel \/
   (x = otherPath /\ otherPath <> docPath /\
    (sharesCategory doc otherDoc \/ sharesTags doc otherDoc))).
Proof.
  intros docPath doc rel otherPath otherDoc rel' x H.
  unfold implicitStep in H. unfold sharesCategory, sharesTags.
  destruct (otherPath =? docPath) eqn:E.
  - apply Ok_inj in H. subst rel'. apply String.eqb_eq in E.
    split; [tauto|]. intros [Hx|[_ [Hne _]]]; [exact Hx|contradiction].
  - apply String.eqb_neq in E.
    destruct (sharedTags false (docTags doc) (docTags otherDoc)) as [shared|e];
      cbn [rbind] in H; [|discriminate].
    apply Ok_inj in H. subst rel'.
    rewrite in_cond_add_iff, in_cond_add_iff, andb_true_iff, Nat.leb_le.
    split.
    + intros [[Hx|[Hc Hx]]|[Hl Hx]].
      * left. exact Hx.
      * right. split; [exact Hx|]. split; [exact E|]. left. exact Hc.
      * right. split; [exact Hx|]. split; [exact E|]. right.
        exists shared. split; [reflexivity|exact Hl].
    + intros [Hx|[Hx [_ [Hc|[sh [Hsh Hl]]]]]].
      * left. left. exact Hx.
      * left. right. split; [exact Hc|exact Hx].
      * apply Ok_inj in Hsh. subst sh. right. split; [exact Hl|exact Hx].
Qed.

Lemma implicit_loop_edges : forall docPath doc others rel rel' x,
  foldRes (implicitStep docPath doc) others rel = Ok rel' ->
  (In x rel' <->
   In x rel \/
   (x <> docPath /\
    exists otherDoc, In (x, otherDoc) others /\
      (sharesCategory doc otherDoc \/ sharesTags doc otherDoc))).
Proof.
  intros docPath doc others.
  induction others as [|[op od] others IH]; intros rel rel' x H.
  - simpl in H. apply Ok_inj in H. subst. split; [tauto|].
    intros [Hx|[_ [o [[] _]]]]. exact Hx.
  - rewrite foldRes_cons in H.
    destruct (implicitStep docPath doc rel (op, od)) as [rel1|e] eqn:E;
      cbn [rbind] in H; [|discriminate].
    rewrite (IH _ _ x H), (implicitStep_edges _ _ _ _ _ _ x E). split.
    + intros [[Hx|[Hx [Hne Hs]]]|[Hne [o [Ho Hs]]]].
      * left. exact Hx.
      * right. subst x. split; [exact Hne|]. exists od.
        split; [left; reflexivity|exact Hs].
      * right. split; [exact Hne|]. exists o. split; [right; exact Ho|exact Hs].
    + intros [Hx|[Hne [o [[Heq|Ho] Hs]]]].
      * left. left. exact Hx.
      * inversion Heq. subst op od. left. right. tauto.
      * right. split; [exact Hne|]. exists o. tauto.
Qed.

Lemma linkRelated_edges : forall doc rel x,
  In x (linkRelated P docsPath docs doc rel) <->
  In x rel \/ linksTo P docsPath docs doc x.
Proof.
  intros doc rel x. unfold linkRelated, linksTo.
  generalize (Link.targets (content doc)) as targets. intro targets.
  revert rel. induction targets as [|t targets IH]; intro rel; simpl.
  - split; [tauto|]. intros [H|[l [[] _]]]. exact H.
  - rewrite IH, in_addIfDocument. split.
    + intros [[Hx|[Hx Hd]]|[l [Hl Hn]]].
      * left. exact Hx.
      * right. exists t. subst x. split; [left; reflexivity|split; [reflexivity|exact Hd]].
      * right. exists l. split; [right; exact Hl|exact Hn].
    + intros [Hx|[l [[Heq|Hl] [Hn Hd]]]].
      * left. left. exact Hx.
      * subst l. left. right. subst x. split; [reflexivity|exact Hd].
      * right. exists l. tauto.
Qed.

Lemma relatedOf_edges : forall docPath doc rel x,
  relatedOf P docsPath docs docPath doc = Ok rel ->
  (In x rel <-> edge P docsPath docs docPath doc x).
Proof.
  intros docPath doc rel x H. unfold relatedOf in H. unfold edge.
  destruct (explicitRelated P docsPath docs doc []) as [rel1|e] eqn:E1;
    cbn [rbind] in H; [|discriminate].
  destruct (foldRes (implicitStep docPath doc) docs rel1) as [rel2|e] eqn:E2;
    cbn [rbind] in H; [|discriminate].
  apply Ok_inj in H. subst rel.
  rewrite linkRelated_edges, (implicit_loop_edges _ _ _ _ _ x E2),
    (explicitRelated_edges _ _ _ x E1).
  simpl. tauto.
Qed.

End EdgeFacts.

(** ** The score entries of [search] *)

Section SearchScoreFacts.

Variable P : Platform.
Variable idx : DocumentIndex.
Variable tokens : list string.
Variable wantedCategory : option string.
Variable wantedTags : option (list string).

(** The entry [(docPath, score)] is the score of a stored document that
    passed the filters. *)
Let earned (entry : string * Q) : Prop :=
  exists doc,
    In (fst entry, doc) (documents idx) /\
    categoryMismatch wantedCategory doc = false /\
    tagsMissing wantedTags doc = Ok false /\
    docScore idx tokens (fst entry) doc = Ok (snd entry) /\ 0 < snd entry.

Lemma searchStep_entries : forall scores docPath doc scores',
  searchStep idx tokens wantedCategory wantedTags scores (docPath, doc)
    = Ok scores' ->
  In (docPath, doc) (documents idx) ->
  NoDup (map fst scores) -> Forall earned scores ->
  NoDup (map fst scores') /\ Forall earned scores' /\
  (forall k, In k (map fst scores) -> In k (map fst scores')) /\
  (scored P idx tokens wantedCategory wantedTags docPath doc ->
   In docPath (map fst scores')).
Proof.
  intros scores docPath doc scores' H Hdoc Hnd Hall. unfold searchStep in H.
  unfold scored.
  destruct (categoryMismatch wantedCategory doc) eqn:Ec.
  { apply Ok_inj in H. subst. repeat split; try assumption; try tauto.
    intros [Hf _]. discriminate. }
  destruct (tagsMissing wantedTags doc) as [[|]|e] eqn:Et; cbn [rbind] in H;
    try discriminate.
  { apply Ok_inj in H. subst. repeat split; try assumption; try tauto.
    intros [_ [Hf _]]. discriminate. }
  destruct (docScore idx tokens docPath doc) as [score|e] eqn:Es;
    cbn [rbind] in H; [|discriminate].
  apply Ok_inj in H. subst scores'.
  destruct (Qlt_le_dec 0 score) as [Hpos|Hle].
  - split; [apply NoDup_map_set; [apply String.eqb_eq|exact Hnd]|].
    split; [|split].
    + apply Forall_forall. intros [k sc] Hin.
      apply (in_map_set _ _ String.eqb String.eqb_eq) in Hin.
      destruct Hin as [Hin|[Hk Hsc]].
      * rewrite Forall_forall in Hall. apply (Hall _ Hin).
      * subst. exists doc. simpl. repeat split; assumption.
    + intros k Hk. apply in_map_set_keys. left. exact Hk.
    + intros _. apply in_map_set_keys. right. reflexivity.
  - repeat split; try assumption; try tauto.
    intros [_ [_ [sc [Hsc Hp]]]]. apply Ok_inj in Hsc. subst sc.
    exfalso. apply (Qlt_irrefl 0). eapply Qlt_le_trans; eassumption.
Qed.

Lemma search_loop_entries : forall entries scores scores',
  foldRes (searchStep idx tokens wantedCategory wantedTags) entries scores
    = Ok scores' ->
  incl entries (documents idx) ->
  NoDup (map fst scores) -> Forall earned scores ->
  NoDup (map fst scores') /\ Forall earned scores' /\
  (forall k, In k (map fst scores) -> In k (map fst scores')) /\
  (forall p doc, In (p, doc) entries ->
     scored P idx tokens wantedCategory wantedTags p doc ->
     In p (map fst scores')).
Proof.
  intros entries.
  induction entries as [|[p d] entries IH]; intros scores scores' H Hincl Hnd Hall.
  - simpl in H. apply Ok_inj in H. subst. repeat split; try assumption; try tauto.
    intros q doc [].
  - rewrite foldRes_cons in H.
    destruct (searchStep idx tokens wantedCategory wantedTags scores (p, d))
      as [scores1|e] eqn:E; cbn [rbind] in H; [|discriminate].
    destruct (searchStep_entries _ _ _ _ E (Hincl _ (or_introl eq_refl)) Hnd Hall)
      as [Hnd1 [Hall1 [Hkeep1 Hnew1]]].
    destruct (IH _ _ H (fun x Hx => Hincl x (or_intror Hx)) Hnd1 Hall1)
      as [Hnd2 [Hall2 [Hkeep2 Hnew2]]].
    repeat split; try assumption.
    + intros k Hk. apply Hkeep2, Hkeep1, Hk.
    + intros q doc [Heq|Hin] Hs.
      * inversion Heq. subst q doc. apply Hkeep2, Hnew1, Hs.
      * apply (Hnew2 q doc Hin Hs).
Qed.

End SearchScoreFacts.

Lemma search_unfold : forall P idx query wantedCategory wantedTags,
  search P idx query wantedCategory wantedTags =
  rbind (searchScores P idx query wantedCategory wantedTags)
    (fun scores => Ok (map fst (sortDesc higher scores))).
Proof. reflexivity. Qed.

Lemma searchScores_spec : forall P idx query wantedCategory wantedTags scores,
  searchScores P idx query wantedCategory wantedTags = Ok scores ->
  NoDup (map fst scores) /\
  (forall p sc, In (p, sc) scores ->
     exists doc, In (p, doc) (documents idx) /\
       docScore idx (queryTokens P query) p doc = Ok sc /\ 0 < sc) /\
  (forall p doc, In (p, doc) (documents idx) ->
     scored P idx (queryTokens P query) wantedCategory wantedTags p doc ->
     In p (map fst scores)).
Proof.
  intros P idx query wantedCategory wantedTags scores H.
  unfold searchScores in H.
  destruct (search_loop_entries P idx _ _ _ _ _ _ H (incl_refl _)
              (NoDup_nil _) (Forall_nil _)) as [Hnd [Hall [_ Hnew]]].
  split; [exact Hnd|]. split; [|exact Hnew].
  intros p sc Hin. rewrite Forall_forall in Hall.
  destruct (Hall _ Hin) as [doc [Hd [_ [_ [Hs Hp]]]]].
  exists doc. simpl in *. tauto.
Qed.

(** ** [search]: what is returned, and in which order *)

(** X1: the paths [search] returns are exactly the keys of the stored
    documents that pass the category filter and the tag filter and whose
    score for the query is above 0. *)
Theorem search_returns_scored_documents :
  forall P idx query wantedCategory wantedTags results p,
    search P idx query wantedCategory wantedTags = Ok results ->
    (In p results <->
     exists doc, In (p, doc) (documents idx) /\
       scored P idx (queryTokens P query) wantedCategory wantedTags p doc).
Proof.
  intros P idx query wantedCategory wantedTags results p H. split.
  - intro Hp. exact (search_results_scored _ _ _ _ _ _ _ H Hp).
  - intros [doc [Hin Hs]]. rewrite search_unfold in H.
    destruct (searchScores P idx query wantedCategory wantedTags)
      as [scores|e] eqn:E; cbn [rbind] in H; [|discriminate].
    apply Ok_inj in H. subst results.
    destruct (searchScores_spec _ _ _ _ _ _ E) as [_ [_ Hnew]].
    specialize (Hnew p doc Hin Hs).
    apply in_map_iff in Hnew. destruct Hnew as [[k sc] [Hk Hksc]].
    simpl in Hk. subst k. apply in_map_iff. exists (p, sc).
    split; [reflexivity|]. apply in_sortDesc. exact Hksc.
Qed.

(** On the sample tree: [search('auth')] and [api/auth.md]. *)
Lemma search_returns_scored_documents_witness :
  In "api/auth.md" ["api/auth.md"; "guides/login.md"] <->
  exists doc, In ("api/auth.md", doc) (documents Corpus.apiIndex) /\
    scored Sample.platform Corpus.apiIndex
      (queryTokens Sample.platform "auth") None None "api/auth.md" doc.
Proof.
  apply (search_returns_scored_documents Sample.platform Corpus.apiIndex
           "auth" None None).
  vm_compute. reflexivity.
Defined.

Lemma Qge_transitive :
  forall a b c : string * Q, snd b <= snd a -> snd c <= snd b -> snd c <= snd a.
Proof. intros a b c H1 H2. eapply Qle_trans; eassumption. Qed.

(** X2: [search] returns no path twice, and the paths come in order of
    score, highest first: they are the keys of a list of score entries in
    which no later entry has a higher score than an earlier one, each
    score being the score of a stored document of that key. *)
Theorem search_results_ordered_by_score :
  forall P idx query wantedCategory wantedTags results,
    search P idx query wantedCategory wantedTags = Ok results ->
    NoDup results /\
    exists scores,
      map fst scores = results /\
      StronglySorted (fun a b => snd b <= snd a) scores /\
      forall p sc, In (p, sc) scores ->
        exists doc, In (p, doc) (documents idx) /\
          docScore idx (queryTokens P query) p doc = Ok sc.
Proof.
  intros P idx query wantedCategory wantedTags results H.
  rewrite search_unfold in H.
  destruct (searchScores P idx query wantedCategory wantedTags)
    as [scores|e] eqn:E; cbn [rbind] in H; [|discriminate].
  apply Ok_inj in H. subst results.
  destruct (searchScores_spec _ _ _ _ _ _ E) as [Hnd [Hsc _]].
  pose proof (sortDesc_perm _ higher scores) as Hperm.
  split.
  - eapply Permutation_NoDup; [|exact Hnd].
    apply Permutation_map, Permutation_sym, Hperm.
  - exists (sortDesc higher scores). split; [reflexivity|]. split.
    + apply Sorted_StronglySorted.
      * intros a b c. apply Qge_transitive.
      * pose proof (sortDesc_sorted _ higher higher_asym scores) as Hs.
        eapply Sorted_ind with (P := fun l => Sorted (fun a b => snd b <= snd a) l);
          [constructor| |exact Hs].
        intros a l _ IH Hh. constructor; [exact IH|].
        destruct Hh as [|b l' Hab]; constructor.
        unfold higher in Hab.
        destruct (Qlt_le_dec (snd a) (snd b)) as [Hlt|Hle];
          [discriminate|exact Hle].
    + intros p sc Hin. apply in_sortDesc in Hin.
      destruct (Hsc p sc Hin) as [doc [Hd [Hs _]]]. exists doc. tauto.
Qed.

(** On the sample tree: [search('auth login')]. *)
Lemma search_results_ordered_by_score_witness :
  NoDup ["api/auth.md"; "guides/login.md"] /\
  exists scores,
    map fst scores = ["api/auth.md"; "guides/login.md"] /\
    StronglySorted (fun a b => snd b <= snd a) scores /\
    forall p sc, In (p, sc) scores ->
      exists doc, In (p, doc) (documents Corpus.apiIndex) /\
        docScore Corpus.apiIndex (queryTokens Sample.platform "auth login")
          p doc = Ok sc.
Proof.
  apply (search_results_ordered_by_score Sample.platform Corpus.apiIndex
           "auth login" None None).
  vm_compute. reflexivity.
Defined.

Lemma docScore_no_tokens : forall idx docPath doc score,
  docScore idx [] docPath doc = Ok score -> score = 0.
Proof.
  intros idx docPath doc score H. unfold docScore in H.
  destruct (titleLower doc) as [lower|e]; cbn [rbind] in H; [|discriminate].
  simpl in H. destruct (map_get String.eqb docPath (tfidf idx));
    apply Ok_inj in H; subst score; reflexivity.
Qed.

(** X3: a query in which the tokenizer finds no token gives no result:
    when [search] returns at all, it returns the empty list. *)
Theorem search_without_tokens_is_empty :
  forall P idx query wantedCategory wantedTags results,
    queryTokens P query = [] ->
    search P idx query wantedCategory wantedTags = Ok results ->
    results = [].
Proof.
  intros P idx query wantedCategory wantedTags results Htok H.
  destruct results as [|p results]; [reflexivity|]. exfalso.
  destruct (search_results_scored _ _ _ _ _ _ _ H (or_introl eq_refl))
    as [doc [_ [_ [_ [score [Hs Hpos]]]]]].
  rewrite Htok in Hs. apply docScore_no_tokens in Hs. subst score.
  exact (Qlt_irrefl 0 Hpos).
Qed.

(** On the sample tree: the query [?!]. *)
Lemma search_without_tokens_is_empty_witness :
  search Sample.platform Corpus.apiIndex "?!" None None = Ok [] /\
  @nil string = [].
Proof.
  split; [vm_compute; reflexivity|].
  apply (search_without_tokens_is_empty Sample.platform Corpus.apiIndex
           "?!" None None); vm_compute; reflexivity.
Defined.

(** ** [getRelatedDocuments]: what is returned, and in which order *)

Lemma slice0_firstn : forall A limit (l : list A),
  exists n, slice0 limit l = firstn n l /\
            ((0 <= limit)%Z -> n = Z.to_nat limit).
Proof.
  intros A limit l. unfold slice0. destruct (limit <? 0)%Z eqn:E.
  - eexists. split; [reflexivity|]. apply Z.ltb_lt in E. lia.
  - eexists. split; [reflexivity|]. reflexivity.
Qed.

Lemma firstn_incl : forall A n (l : list A), incl (firstn n l) l.
Proof.
  intros A n l x Hx. rewrite <- (firstn_skipn n l). apply in_or_app.
  left. exact Hx.
Qed.

Lemma firstn_NoDup : forall A n (l : list A), NoDup l -> NoDup (firstn n l).
Proof.
  intros A n l H. rewrite <- (firstn_skipn n l) in H.
  apply NoDup_app_remove_r in H. exact H.
Qed.

Lemma firstn_StronglySorted : forall A (R : A -> A -> Prop) n l,
  StronglySorted R l -> StronglySorted R (firstn n l).
Proof.
  intros A R n l. revert n. induction l as [|x l IH]; intros n H.
  - rewrite firstn_nil. constructor.
  - destruct n as [|n]; simpl; [constructor|].
    inversion H as [|? ? Hs Hall]; subst. constructor; [apply IH, Hs|].
    rewrite Forall_forall in *. intros y Hy. apply Hall.
    apply (firstn_incl _ n l). exact Hy.
Qed.

Section RelatedScoreFacts.

Variable idx : DocumentIndex.
Variable docPath : string.

Lemma relatedScores_loop : forall rel scores scores',
  foldRes (fun acc relPath =>
             rbind (relatedScore idx docPath relPath)
               (fun score => Ok (map_set String.eqb relPath score acc)))
    rel scores = Ok scores' ->
  NoDup (map fst scores) ->
  (forall p z, In (p, z) scores -> relatedScore idx docPath p = Ok z) ->
  NoDup (map fst scores') /\
  (forall p z, In (p, z) scores' -> relatedScore idx docPath p = Ok z) /\
  (forall p, In p (map fst scores') <-> In p (map fst scores) \/ In p rel).
Proof.
  intros rel. induction rel as [|r rel IH]; intros scores scores' H Hnd Hsc.
  - simpl in H. apply Ok_inj in H. subst. repeat split; try assumption.
    + tauto.
    + intros [Hp|[]]. exact Hp.
  - rewrite foldRes_cons in H.
    destruct (relatedScore idx docPath r) as [z|e] eqn:E;
      cbn [rbind] in H; [|discriminate].
    destruct (IH _ _ H) as [Hnd' [Hsc' Hkeys]].
    + apply NoDup_map_set; [apply String.eqb_eq|exact Hnd].
    + intros p z' Hin. apply (in_map_set _ _ String.eqb String.eqb_eq) in Hin.
      destruct Hin as [Hin|[Hp Hz]]; [apply Hsc, Hin|subst; exact E].
    + repeat split; try assumption.
      * intro Hp. apply Hkeys in Hp. rewrite in_map_set_keys in Hp.
        simpl. intuition congruence.
      * intro Hp. apply Hkeys. rewrite in_map_set_keys. simpl in Hp.
        intuition congruence.
Qed.

Lemma relatedScores_spec : forall rel scores,
  relatedScores idx docPath rel = Ok scores ->
  NoDup (map fst scores) /\
  (forall p z, In (p, z) scores -> relatedScore idx docPath p = Ok z) /\
  (forall p, In p (map fst scores) <-> In p rel).
Proof.
  intros rel scores H. unfold relatedScores in H.
  destruct (relatedScores_loop _ _ _ H (NoDup_nil _)) as [Hnd [Hsc Hkeys]].
  - intros p z [].
  - repeat split; try assumption.
    + intro Hp. apply Hkeys in Hp. destruct Hp as [[]|Hp]. exact Hp.
    + intro Hp. apply Hkeys. right. exact Hp.
Qed.

End RelatedScoreFacts.

Lemma getRelatedDocuments_unfold : forall idx docPath limit,
  getRelatedDocuments idx docPath limit =
  match map_get String.eqb docPath (relationships idx) with
  | None | Some [] => Ok []
  | Some rel =>
      rbind (relatedScores idx docPath rel)
        (fun scores => Ok (map fst (slice0 limit (sortDesc higherZ scores))))
  end.
Proof. reflexivity. Qed.

(** What a successful call of [getRelatedDocuments] went through. *)
Lemma getRelatedDocuments_run : forall idx docPath limit results,
  getRelatedDocuments idx docPath limit = Ok results ->
  results = [] \/
  exists rel scores,
    map_get String.eqb docPath (relationships idx) = Some rel /\
    relatedScores idx docPath rel = Ok scores /\
    results = map fst (slice0 limit (sortDesc higherZ scores)).
Proof.
  intros idx docPath limit results H. rewrite getRelatedDocuments_unfold in H.
  destruct (map_get String.eqb docPath (relationships idx)) as [[|r rel]|] eqn:E.
  - left. apply Ok_inj in H. symmetry. exact H.
  - destruct (relatedScores idx docPath (r :: rel)) as [scores|e] eqn:Es;
      cbn [rbind] in H; [|discriminate].
    apply Ok_inj in H. right. exists (r :: rel), scores.
    split; [reflexivity|]. split; [exact Es|]. symmetry. exact H.
  - left. apply Ok_inj in H. symmetry. exact H.
Qed.

(** X4: [getRelatedDocuments(id, limit)] returns paths of the relationship
    set of [id] only, none of them twice, and for a limit that is not
    negative at most [limit] of them. *)
Theorem getRelatedDocuments_within_set_and_limit :
  forall idx docPath limit results,
    getRelatedDocuments idx docPath limit = Ok results ->
    NoDup results /\
    (forall p, In p results ->
       exists rel, map_get String.eqb docPath (relationships idx) = Some rel /\
                   In p rel) /\
    ((0 <= limit)%Z -> (Z.of_nat (List.length results) <= limit)%Z).
Proof.
  intros idx docPath limit results H.
  destruct (getRelatedDocuments_run _ _ _ _ H) as [He|[rel [scores [Hrel [Hs Hr]]]]].
  - subst results. split; [constructor|]. split; [intros p []|simpl; lia].
  - destruct (relatedScores_spec _ _ _ _ Hs) as [Hnd [_ Hkeys]].
    destruct (slice0_firstn _ limit (sortDesc higherZ scores)) as [n [Hn Hlim]].
    rewrite Hn in Hr. subst results.
    pose proof (sortDesc_perm _ higherZ scores) as Hperm.
    split; [|split].
    + rewrite <- firstn_map. apply firstn_NoDup.
      eapply Permutation_NoDup; [|exact Hnd].
      apply Permutation_map, Permutation_sym, Hperm.
    + intros p Hp. exists rel. split; [exact Hrel|]. apply Hkeys.
      rewrite <- firstn_map in Hp. apply firstn_incl in Hp.
      apply in_map_iff in Hp. destruct Hp as [e [He Hin]].
      apply in_sortDesc in Hin. apply in_map_iff. exists e. tauto.
    + intro Hpos. rewrite length_map, length_firstn, (Hlim Hpos). lia.
Qed.

(** On the sample tree: the neighbours of [api/auth.md], limit 1. *)
Lemma getRelatedDocuments_within_set_and_limit_witness :
  NoDup ["guides/login.md"] /\
  (forall p, In p ["guides/login.md"] ->
     exists rel,
       map_get String.eqb "api/auth.md" (relationships Corpus.apiIndex) = Some rel /\
       In p rel) /\
  ((0 <= 1)%Z -> (Z.of_nat (List.length ["guides/login.md"]) <= 1)%Z).
Proof.
  apply (getRelatedDocuments_within_set_and_limit Corpus.apiIndex "api/auth.md" 1).
  vm_compute. reflexivity.
Defined.

(** X5: with a limit of at least the size of the relationship set,
    [getRelatedDocuments] returns every path of the set. *)
Theorem getRelatedDocuments_returns_whole_set :
  forall idx docPath limit results rel p,
    getRelatedDocuments idx docPath limit = Ok results ->
    map_get String.eqb docPath (relationships idx) = Some rel ->
    (Z.of_nat (List.length rel) <= limit)%Z ->
    In p rel -> In p results.
Proof.
  intros idx docPath limit results rel p H Hrel Hlim Hp.
  destruct (getRelatedDocuments_run _ _ _ _ H) as [He|[rel' [scores [Hrel' [Hs Hr]]]]].
  - subst results. rewrite getRelatedDocuments_unfold, Hrel in H.
    destruct rel as [|r rel]; [contradiction|].
    destruct (relatedScores idx docPath (r :: rel)) as [scores|e] eqn:Es;
      cbn [rbind] in H; [|discriminate].
    apply Ok_inj in H.
    destruct (relatedScores_spec _ _ _ _ Es) as [Hnd [_ Hkeys]].
    assert (Hlen : (List.length scores <= List.length (r :: rel))%nat).
    { rewrite <- (length_map fst scores). apply NoDup_incl_length; [exact Hnd|].
      intros x Hx. apply Hkeys, Hx. }
    unfold slice0 in H. destruct (limit <? 0)%Z eqn:El.
    { apply Z.ltb_lt in El. lia. }
    rewrite firstn_all2 in H.
    + apply Hkeys in Hp. apply in_map_iff in Hp. destruct Hp as [e [He Hin]].
      apply (in_sortDesc _ higherZ) in Hin.
      apply (in_map fst) in Hin. rewrite H, He in Hin. exact Hin.
    + rewrite (Permutation_length (sortDesc_perm _ higherZ scores)). lia.
  - rewrite Hrel in Hrel'. inversion Hrel'. subst rel'.
    destruct (relatedScores_spec _ _ _ _ Hs) as [Hnd [_ Hkeys]].
    assert (Hlen : (List.length scores <= List.length rel)%nat).
    { rewrite <- (length_map fst scores). apply NoDup_incl_length; [exact Hnd|].
      intros x Hx. apply Hkeys, Hx. }
    subst results. unfold slice0. destruct (limit <? 0)%Z eqn:El.
    { apply Z.ltb_lt in El. lia. }
    rewrite firstn_all2.
    + apply Hkeys in Hp. apply in_map_iff in Hp. destruct Hp as [e [He Hin]].
      apply in_map_iff. exists e. split; [exact He|]. apply in_sortDesc. exact Hin.
    + rewrite (Permutation_length (sortDesc_perm _ higherZ scores)). lia.
Qed.

(** On the sample tree: the document that refers to itself, limit 10. *)
Lemma getRelatedDocuments_returns_whole_set_witness :
  In "b.md" ["a.md"; "b.md"].
Proof.
  apply (getRelatedDocuments_returns_whole_set
           (snd (Sample.build Corpus.selfReferences)) "a.md" 10
           ["a.md"; "b.md"] ["a.md"; "b.md"] "b.md").
  - vm_compute. reflexivity.
  - vm_compute. reflexivity.
  - vm_compute. discriminate.
  - right. left. reflexivity.
Defined.

Lemma sortDesc_higherZ_sorted : forall scores,
  StronglySorted (fun a b : string * Z => (snd b <= snd a)%Z)
    (sortDesc higherZ scores).
Proof.
  intro scores. apply Sorted_StronglySorted.
  - intros a b c Hab Hbc. lia.
  - pose proof (sortDesc_sorted _ higherZ higherZ_asym scores) as Hs.
    eapply Sorted_ind
      with (P := fun l => Sorted (fun a b : string * Z => (snd b <= snd a)%Z) l);
      [constructor| |exact Hs].
    intros a l _ IH Hh. constructor; [exact IH|].
    destruct Hh as [|b l' Hab]; constructor.
    unfold higherZ in Hab. apply Z.ltb_ge in Hab. exact Hab.
Qed.

(** X6: the paths [getRelatedDocuments] returns come in the order of their
    connection scores, highest first: each returned path carries the score
    [relatedScore] gives it, and no path is followed by one with a higher
    score. *)
Theorem getRelatedDocuments_ordered_by_score :
  forall idx docPath limit results,
    getRelatedDocuments idx docPath limit = Ok results ->
    exists scores,
      map fst scores = results /\
      StronglySorted (fun a b => (snd b <= snd a)%Z) scores /\
      forall p z, In (p, z) scores -> relatedScore idx docPath p = Ok z.
Proof.
  intros idx docPath limit results H.
  destruct (getRelatedDocuments_run _ _ _ _ H) as [He|[rel [scores [Hrel [Hs Hr]]]]].
  - subst results. exists []. split; [reflexivity|]. split; [constructor|].
    intros p z [].
  - destruct (relatedScores_spec _ _ _ _ Hs) as [_ [Hsc _]].
    destruct (slice0_firstn _ limit (sortDesc higherZ scores)) as [n [Hn _]].
    exists (slice0 limit (sortDesc higherZ scores)).
    split; [symmetry; exact Hr|]. rewrite Hn. split.
    + apply firstn_StronglySorted, sortDesc_higherZ_sorted.
    + intros p z Hin. apply firstn_incl in Hin. apply in_sortDesc in Hin.
      apply Hsc, Hin.
Qed.

(** On the sample tree: the neighbours of the document that refers to
    itself. *)
Lemma getRelatedDocuments_ordered_by_score_witness :
  exists scores,
    map fst scores = ["a.md"; "b.md"] /\
    StronglySorted (fun a b => (snd b <= snd a)%Z) scores /\
    forall p z, In (p, z) scores ->
      relatedScore (snd (Sample.build Corpus.selfReferences)) "a.md" p = Ok z.
Proof.
  apply (getRelatedDocuments_ordered_by_score
           (snd (Sample.build Corpus.selfReferences)) "a.md" 10).
  vm_compute. reflexivity.
Defined.

(** ** The index a build leaves: documents *)

Lemma built_snd : forall P docsPath root prev r idx,
  buildIndex P docsPath root prev = (r, idx) ->
  idx = snd (buildIndex P docsPath root prev).
Proof. intros P docsPath root prev r idx H. rewrite H. reflexivity. Qed.



Section LastWrite.

Variable P : Platform.
Variable docsPath : string.

Lemma addFile_get_other : forall s file p,
  getRelativePath P docsPath (fullPath file) <> p ->
  map_get String.eqb p (documents (addFile P docsPath s file)) =
  map_get String.eqb p (documents s).
Proof.
  intros s file p Hne. unfold addFile.
  destruct (readFile file) as [contents|]; [|reflexivity].
  destruct (stat file) as [mtimeMs|]; [|reflexivity].
  destruct (matter P contents) as [parsed|]; [|reflexivity].
  rewrite addDocument_documents.
  apply (map_get_set_other _ _ String.eqb String.eqb_eq).
  intro Heq. apply Hne. rewrite Heq. reflexivity.
Qed.

Lemma addFiles_get_other : forall files s p,
  ~ In p (map (fun f => getRelativePath P docsPath (fullPath f)) files) ->
  map_get String.eqb p (documents (fold_left (addFile P docsPath) files s)) =
  map_get String.eqb p (documents s).
Proof.
  intros files. induction files as [|f files IH]; intros s p Hout; simpl.
  - reflexivity.
  - rewrite IH.
    + apply addFile_get_other. intro Heq. apply Hout. left. exact Heq.
    + intro Hin. apply Hout. right. exact Hin.
Qed.

Lemma addFiles_get_stored : forall files s file doc,
  NoDup (map (fun f => getRelativePath P docsPath (fullPath f)) files) ->
  In file files -> yields P docsPath file doc ->
  map_get String.eqb (getRelativePath P docsPath (fullPath file))
    (documents (fold_left (addFile P docsPath) files s)) = Some doc.
Proof.
  intros files.
  induction files as [|f files IH]; intros s file doc Hnd Hin Hy;
    [contradiction|].
  simpl in Hnd. inversion Hnd as [|? ? Hout Hnd']; subst. simpl.
  destruct Hin as [Heq|Hin].
  - subst f. rewrite addFiles_get_other; [|exact Hout].
    destruct Hy as [c [t [parsed [Hr [Hs [Hm Hd]]]]]].
    unfold addFile. rewrite Hr, Hs, Hm, addDocument_documents, <- Hd.
    rewrite Hd at 1. simpl.
    apply (map_get_set_same _ _ String.eqb String.eqb_eq).
  - apply IH; assumption.
Qed.

End LastWrite.

(** X8: after a build, a markdown file found below the root that can be
    read and parsed is retrievable under its path relative to the
    documents directory, as the document made of its content, its
    frontmatter and its modification time, provided no two files found
    have the same relative path. *)
Theorem readable_file_is_retrievable :
  forall P docsPath root prev r idx file doc,
    buildIndex P docsPath root prev = (r, idx) ->
    NoDup (foundPaths P docsPath root) ->
    In file (findMarkdownFiles P docsPath root) ->
    yields P docsPath file doc ->
    getDocument idx (getRelativePath P docsPath (fullPath file)) = Some doc.
Proof.
  intros P docsPath root prev r idx file doc Hbuild Hnd Hin Hy.
  apply built_snd in Hbuild. subst idx. unfold getDocument.
  destruct (built_maps P docsPath root prev) as [Hd _]. rewrite Hd.
  rewrite indexed_fold. apply addFiles_get_stored; assumption.
Qed.

(** On the sample tree: [/docs/guides/login.md]. *)
Lemma readable_file_is_retrievable_witness :
  getDocument Corpus.apiIndex "guides/login.md" =
  Some (documentOf Sample.platform "/docs"
          (mkFound "/docs/guides/login.md" (Some (Sample.text Sample.guideDoc)) (Some 0))
          (Sample.text Sample.guideDoc) 0
          (mkParsed (snd Sample.guideDoc) (snd (fst Sample.guideDoc)))).
Proof.
  apply (@readable_file_is_retrievable Sample.platform "/docs" Corpus.api
           emptyIndex (fst (Sample.build Corpus.api)) Corpus.apiIndex
           (mkFound "/docs/guides/login.md"
              (Some (Sample.text Sample.guideDoc)) (Some 0))).
  - vm_compute. reflexivity.
  - vm_compute. repeat constructor; simpl; intuition discriminate.
  - vm_compute. right. left. reflexivity.
  - exists (Sample.text Sample.guideDoc), 0,
      (mkParsed (snd Sample.guideDoc) (snd (fst Sample.guideDoc))).
    repeat split.
Defined.

(** ** The index a build leaves: keywords and what [search] makes of them *)






Lemma foldRes_throws : forall A S (f : S -> A -> Res S) l s x,
  In x l -> (forall a, exists e, f a x = Throw e) ->
  exists e, foldRes f l s = Throw e.
Proof.
  intros A S f l. induction l as [|y l IH]; intros s x Hin Hx; [contradiction|].
  rewrite foldRes_cons. destruct (f s y) as [s1|e] eqn:E; cbn [rbind].
  - destruct Hin as [Heq|Hin].
    + subst y. destruct (Hx s) as [e He]. rewrite He in E. discriminate.
    + exact (IH _ _ Hin Hx).
  - exists e. reflexivity.
Qed.




(** X11: a title that is neither a string nor absent breaks the search.
    When a stored document passes the category filter and the tag filter
    and its [title] is a number, a boolean, a list or a mapping, [search]
    throws, whatever the query. *)
Theorem search_throws_on_untyped_title :
  forall P idx query wantedCategory wantedTags p d,
    In (p, d) (documents idx) ->
    categoryMismatch wantedCategory d = false ->
    tagsMissing wantedTags d = Ok false ->
    title d <> JUndefined -> title d <> JNull ->
    (forall s, title d <> JStr s) ->
    exists e, search P idx query wantedCategory wantedTags = Throw e.
Proof.
  intros P idx query wantedCategory wantedTags p d Hin Hcat Htags Hu Hn Hs.
  rewrite search_unfold. unfold searchScores.
  destruct (foldRes_throws _ _
              (searchStep idx (queryTokens P query) wantedCategory wantedTags)
              (documents idx) [] (p, d) Hin) as [e He].
  - intro a. unfold searchStep. rewrite Hcat, Htags. cbn [rbind].
    unfold docScore, titleLower.
    destruct (title d) as [| |b|n|s| |]; try contradiction;
      try (exists TypeError; reflexivity).
    exfalso. exact (Hs s eq_refl).
  - exists e. rewrite He. reflexivity.
Qed.

(** On a tree with a document whose frontmatter says [title: 2024]. *)
Lemma search_throws_on_untyped_title_witness :
  exists e, search Sample.loosePlatform Corpus.looseIndex "release" None None
            = Throw e.
Proof.
  apply (@search_throws_on_untyped_title Sample.loosePlatform Corpus.looseIndex
           "release" None None "notes.md"
           (documentOf Sample.loosePlatform "/docs"
              (mkFound "/docs/notes.md" (Some (Sample.text Sample.numericTitle))
                 (Some 0))
              (Sample.text Sample.numericTitle) 0
              (mkParsed (snd Sample.numericTitle) (snd (fst Sample.numericTitle))))).
  - vm_compute. right. left. reflexivity.
  - reflexivity.
  - reflexivity.
  - vm_compute. discriminate.
  - vm_compute. discriminate.
  - intros s. vm_compute. discriminate.
Defined.

(** ** Where the entries of the inverted maps come from *)


Section BucketSources.

Variable K : Type.
Variable keq : K -> K -> bool.
Hypothesis keq_sound : forall a b, keq a b = true -> a = b.
Variable R : K -> string -> Prop.




End BucketSources.

Section SourceFacts.

Variable P : Platform.
Variable docsPath : string.
Variable files : list FoundFile.





End SourceFacts.





(** ** The index a build leaves: categories and tags *)







(** ** Frontmatter of other types than [DocumentMetadata] names *)

Lemma forEach_throws : forall A (f : A -> M unit) l s x,
  In x l -> (forall s0, exists e, fst (f x s0) = Throw e) ->
  exists e, fst (forEach l f s) = Throw e.
Proof.
  intros A f l. induction l as [|y l IH]; intros s x Hin Hx; [contradiction|].
  rewrite forEach_cons. destruct (f y s) as [[u|e] s1] eqn:E.
  - destruct Hin as [Heq|Hin].
    + subst y. destruct (Hx s) as [e He]. rewrite E in He. discriminate.
    + exact (IH _ _ Hin Hx).
  - exists e. reflexivity.
Qed.

Lemma relatedOf_throws : forall P docsPath docs p d q d',
  In (q, d') docs -> q <> p ->
  docTags d <> JUndefined -> docTags d <> JNull ->
  (forall items, docTags d <> JArr items) ->
  exists e, relatedOf P docsPath docs p d = Throw e.
Proof.
  intros P docsPath docs p d q d' Hin Hne Hu Hn Ha. unfold relatedOf.
  destruct (explicitRelated P docsPath docs d []) as [rel1|e]; cbn [rbind];
    [|exists e; reflexivity].
  destruct (foldRes_throws _ _ (implicitStep p d) docs rel1 (q, d') Hin)
    as [e He].
  - intro rel. unfold implicitStep.
    destruct (String.eqb_spec q p); [contradiction|].
    unfold sharedTags.
    destruct (docTags d) as [| |b|z|s|items|o]; try contradiction;
      try (exists TypeError; reflexivity).
    exfalso. exact (Ha items eq_refl).
  - exists e. rewrite He. reflexivity.
Qed.

(** X15: tags that are neither a list nor absent break the build.  When
    the index holds a document whose [tags] value is a string, a number,
    a boolean or a mapping, and any other document besides, the
    relationship pass throws and [buildIndex] fails. *)
Theorem buildIndex_throws_on_untyped_tags :
  forall P docsPath root prev r idx p d q d',
    buildIndex P docsPath root prev = (r, idx) ->
    getDocument idx p = Some d ->
    getDocument idx q = Some d' ->
    q <> p ->
    docTags d <> JUndefined -> docTags d <> JNull ->
    (forall items, docTags d <> JArr items) ->
    exists e, r = Throw e.
Proof.
  intros P docsPath root prev r idx p d q d' Hbuild Hp Hq Hne Hu Hn Ha.
  rewrite buildIndex_phases in Hbuild.
  destruct (buildRelationships_frame P docsPath (weighted P docsPath root))
    as [Hd _].
  rewrite Hbuild in Hd. simpl in Hd.
  rewrite buildRelationships_loop in Hbuild.
  apply (map_get_in _ _ String.eqb String.eqb_eq) in Hp, Hq.
  unfold getDocument in *. rewrite Hd in Hp, Hq.
  destruct (forEach_throws _
              (relationshipStep P docsPath (documents (weighted P docsPath root)))
              (documents (weighted P docsPath root))
              (weighted P docsPath root) (p, d) Hp) as [e He].
  - intro s0. unfold relationshipStep, bind, lift.
    destruct (relatedOf_throws P docsPath _ p d q d' Hq Hne Hu Hn Ha) as [e He].
    rewrite He. exists e. reflexivity.
  - exists e. rewrite Hbuild in He. exact He.
Qed.

(** On a tree with a document whose frontmatter says [tags: auth]. *)
Lemma buildIndex_throws_on_untyped_tags_witness :
  exists e,
    fst (buildIndex Sample.loosePlatform "/docs" Corpus.loose emptyIndex)
    = Throw e.
Proof.
  apply (@buildIndex_throws_on_untyped_tags Sample.loosePlatform "/docs"
           Corpus.loose emptyIndex
           (fst (buildIndex Sample.loosePlatform "/docs" Corpus.loose emptyIndex))
           Corpus.looseIndex "session.md"
           (documentOf Sample.loosePlatform "/docs"
              (mkFound "/docs/session.md" (Some (Sample.text Sample.stringTags))
                 (Some 0))
              (Sample.text Sample.stringTags) 0
              (mkParsed (snd Sample.stringTags) (snd (fst Sample.stringTags))))
           "notes.md"
           (documentOf Sample.loosePlatform "/docs"
              (mkFound "/docs/notes.md" (Some (Sample.text Sample.numericTitle))
                 (Some 0))
              (Sample.text Sample.numericTitle) 0
              (mkParsed (snd Sample.numericTitle) (snd (fst Sample.numericTitle))))).
  - vm_compute. reflexivity.
  - vm_compute. reflexivity.
  - vm_compute. reflexivity.
  - discriminate.
  - vm_compute. discriminate.
  - vm_compute. discriminate.
  - intros items. vm_compute. discriminate.
Defined.

(** ** The index a build leaves: relationships *)

Lemma edge_is_document : forall P docsPath docs p d x,
  edge P docsPath docs p d x -> In x (map fst docs).
Proof.
  intros P docsPath docs p d x [H|[H|H]].
  - destruct H as [_ [items [r [_ [_ [_ Hhas]]]]]].
    apply (map_has_true _ _ String.eqb String.eqb_eq). exact Hhas.
  - destruct H as [_ [other [Hin _]]].
    apply in_map_iff. exists (x, other). split; [reflexivity|exact Hin].
  - destruct H as [link [_ [_ Hhas]]].
    apply (map_has_true _ _ String.eqb String.eqb_eq). exact Hhas.
Qed.



Lemma related_paths_resolve :
  forall P docsPath root prev idx p d limit results x,
    buildIndex P docsPath root prev = (Ok tt, idx) ->
    getDocument idx p = Some d ->
    getRelatedDocuments idx p limit = Ok results ->
    In x results ->
    exists d', getDocument idx x = Some d' /\ path d' = x.
Proof.
  intros P docsPath root prev idx p d limit results x Hbuild Hget Hres Hx.
  destruct (built_relationships _ _ _ _ _ _ _ Hbuild Hget) as [rel [Hrel Hmap]].
  assert (Hin : In x rel).
  { destruct (getRelatedDocuments_run _ _ _ _ Hres)
      as [He|[rel' [scores [Hrel' [Hs Hr]]]]].
    - subst results. contradiction.
    - rewrite Hmap in Hrel'. inversion Hrel'. subst rel'.
      destruct (relatedScores_spec _ _ _ _ Hs) as [_ [_ Hkeys]].
      apply Hkeys. subst results.
      destruct (slice0_firstn _ limit (sortDesc higherZ scores)) as [n [Hn _]].
      rewrite Hn, <- firstn_map in Hx. apply firstn_incl in Hx.
      apply in_map_iff in Hx. destruct Hx as [e [He Hine]].
      apply in_sortDesc in Hine. apply in_map_iff. exists e. tauto. }
  apply (relatedOf_edges P docsPath (documents idx) p d rel x Hrel) in Hin.
  apply edge_is_document in Hin.
  apply built_snd in Hbuild. rewrite Hbuild in *.
  destruct (built_getDocument _ _ _ _ _ Hin) as [d' Hd']. exists d'.
  split; [exact Hd'|].
  apply (map_get_in _ _ String.eqb String.eqb_eq) in Hd'.
  exact (proj1 (co_source _ _ _ _ (built_coherent P docsPath root prev) x d' Hd')).
Qed.

(** X17: after a successful build, a document whose list of tags has two
    or more entries that occur in the list of tags of another document
    has that document in its relationship set. *)
Theorem shared_tags_make_an_edge :
  forall P docsPath root prev idx p1 d1 p2 d2 tags1 tags2,
    buildIndex P docsPath root prev = (Ok tt, idx) ->
    getDocument idx p1 = Some d1 ->
    getDocument idx p2 = Some d2 ->
    p1 <> p2 ->
    docTags d1 = JArr (map JStr tags1) ->
    docTags d2 = JArr (map JStr tags2) ->
    (2 <= List.length
            (filter (fun t => existsb (String.eqb t) tags2) tags1))%nat ->
    exists rel,
      map_get String.eqb p1 (relationships idx) = Some rel /\ In p2 rel.
Proof.
  intros P docsPath root prev idx p1 d1 p2 d2 tags1 tags2
    Hbuild H1 H2 Hne Ht1 Ht2 Hlen.
  destruct (built_relationships _ _ _ _ _ _ _ Hbuild H1) as [rel [Hrel Hmap]].
  exists rel. split; [exact Hmap|].
  apply (relatedOf_edges P docsPath (documents idx) p1 d1 rel p2 Hrel).
  right. left. split; [intro He; apply Hne; symmetry; exact He|].
  exists d2. split.
  - apply (map_get_in _ _ String.eqb String.eqb_eq). exact H2.
  - right. unfold sharesTags. rewrite Ht1, Ht2, sharedTags_strings.
    eexists. split; [reflexivity|]. rewrite length_map. exact Hlen.
Qed.

(** On the sample tree with the repeated tag: [a.md] lists [auth] twice,
    [b.md] once. *)
Lemma shared_tags_make_an_edge_witness :
  exists rel,
    map_get String.eqb "a.md"
      (relationships (snd (Sample.build Corpus.repeatedTag))) = Some rel /\
    In "b.md" rel.
Proof.
  apply (@shared_tags_make_an_edge Sample.platform "/docs" Corpus.repeatedTag
           emptyIndex (snd (Sample.build Corpus.repeatedTag))
           "a.md"
           (documentOf Sample.platform "/docs"
              (mkFound "/docs/a.md" (Some (Sample.text Sample.repeatedTag)) (Some 0))
              (Sample.text Sample.repeatedTag) 0
              (mkParsed (snd Sample.repeatedTag) (snd (fst Sample.repeatedTag))))
           "b.md"
           (documentOf Sample.platform "/docs"
              (mkFound "/docs/b.md" (Some (Sample.text Sample.singleTag)) (Some 0))
              (Sample.text Sample.singleTag) 0
              (mkParsed (snd Sample.singleTag) (snd (fst Sample.singleTag))))
           ["auth"; "auth"] ["auth"]).
  - vm_compute. reflexivity.
  - vm_compute. reflexivity.
  - vm_compute. reflexivity.
  - discriminate.
  - vm_compute. reflexivity.
  - vm_compute. reflexivity.
  - vm_compute. lia.
Defined.

(** ** [findMarkdownFiles] *)

Lemma FsNode_nested_ind : forall Pr : FsNode -> Prop,
  (forall contents mtimeMs, Pr (FsFile contents mtimeMs)) ->
  Pr (FsDir None) ->
  (forall entries, Forall (fun e => Pr (snd e)) entries ->
                   Pr (FsDir (Some entries))) ->
  Pr FsOther ->
  forall node, Pr node.
Proof.
  intros Pr Hfile Hnone Hdir Hother.
  refine (fix IH (node : FsNode) : Pr node :=
            match node with
            | FsFile contents mtimeMs => Hfile contents mtimeMs
            | FsDir None => Hnone
            | FsDir (Some entries) =>
                Hdir entries
                  ((fix go (es : list (string * FsNode))
                      : Forall (fun e => Pr (snd e)) es :=
                      match es with
                      | [] => Forall_nil _
                      | e :: es' =>
                          Forall_cons e
                            (match e return Pr (snd e) with
                             | (_, sub) => IH sub
                             end)
                            (go es')
                      end) entries)
            | FsOther => Hother
            end).
Qed.

Section FindFacts.

Variable P : Platform.

Lemma findMarkdownFiles_cons : forall dir name entry es,
  findMarkdownFiles P dir (FsDir (Some ((name, entry) :: es))) =
  match entry with
  | FsDir _ => findMarkdownFiles P (path_join P dir name) entry
  | FsFile contents mtimeMs =>
      if Str.endsWith name ".md"
      then [mkFound (path_join P dir name) contents mtimeMs]
      else []
  | FsOther => []
  end ++ findMarkdownFiles P dir (FsDir (Some es)).
Proof. reflexivity. Qed.

Lemma locates_tail : forall dir e es f,
  locates P dir (FsDir (Some es)) f ->
  locates P dir (FsDir (Some (e :: es))) f.
Proof.
  intros dir e es f H. inversion H; subst.
  - apply locates_file; [right; assumption|assumption].
  - eapply locates_below; [right; eassumption|assumption].
Qed.

Lemma found_are_located : forall node dir f,
  In f (findMarkdownFiles P dir node) -> locates P dir node f.
Proof.
  intro node. induction node as [c m| |entries IH|] using FsNode_nested_ind;
    intros dir f Hin; try contradiction.
  induction entries as [|[name entry] es IHes]; [contradiction|].
  rewrite findMarkdownFiles_cons in Hin. apply in_app_or in Hin.
  inversion IH as [|? ? Hentry Hrest]; subst. simpl in Hentry.
  destruct Hin as [Hin|Hin].
  - destruct entry as [c m|sub|].
    + destruct (Str.endsWith name ".md") eqn:E; [|contradiction].
      destruct Hin as [Heq|[]]. subst f.
      apply locates_file with (name := name); [left; reflexivity|exact E].
    + apply locates_below with (name := name) (sub := sub);
        [left; reflexivity|]. apply Hentry. exact Hin.
    + contradiction.
  - apply locates_tail. apply IHes; assumption.
Qed.

Lemma found_entry : forall dir name entry es f,
  In (name, entry) es ->
  In f (findMarkdownFiles P dir (FsDir (Some [(name, entry)]))) ->
  In f (findMarkdownFiles P dir (FsDir (Some es))).
Proof.
  intros dir name entry es f Hin Hf.
  induction es as [|[n e] es IH]; [contradiction|].
  rewrite findMarkdownFiles_cons. apply in_or_app.
  destruct Hin as [Heq|Hin].
  - inversion Heq. subst. left.
    rewrite findMarkdownFiles_cons, app_nil_r in Hf. exact Hf.
  - right. apply IH. exact Hin.
Qed.

Lemma located_are_found : forall dir node f,
  locates P dir node f -> In f (findMarkdownFiles P dir node).
Proof.
  intros dir node f H.
  induction H as [dir entries name contents mtimeMs Hin Hmd
                 |dir entries name sub f Hin Hloc IH].
  - apply (found_entry dir name (FsFile contents mtimeMs)); [exact Hin|].
    rewrite findMarkdownFiles_cons, Hmd. left. reflexivity.
  - apply (found_entry dir name (FsDir sub)); [exact Hin|].
    rewrite findMarkdownFiles_cons, app_nil_r. exact IH.
Qed.

End FindFacts.

(** X18: [findMarkdownFiles] returns exactly the regular files whose
    name ends in [.md] that lie below the directory through directories
    that can be read, at any depth, each with its joined path; a directory
    that cannot be read, a file of another name and an entry that is
    neither file nor directory contribute nothing and hide nothing. *)
Theorem findMarkdownFiles_finds_exactly :
  forall P dir node f,
    In f (findMarkdownFiles P dir node) <-> locates P dir node f.
Proof.
  intros P dir node f. split.
  - apply found_are_located.
  - apply located_are_found.
Qed.

(** ** The tool handlers *)

Lemma collect_paths : forall idx excerptOf paths,
  (forall p, In p paths ->
     exists d, getDocument idx p = Some d /\ path d = p) ->
  map DocsServer.result_path (DocsServer.collect idx excerptOf paths) = paths.
Proof.
  intros idx excerptOf paths. unfold DocsServer.collect.
  induction paths as [|p paths IH]; intro H; [reflexivity|].
  simpl. destruct (H p (or_introl eq_refl)) as [d [Hd Hp]]. rewrite Hd.
  simpl. rewrite Hp. f_equal. apply IH. intros q Hq. apply H. right. exact Hq.
Qed.

Lemma built_key_resolves : forall P docsPath root prev r idx p d,
  buildIndex P docsPath root prev = (r, idx) ->
  In (p, d) (documents idx) ->
  exists d', getDocument idx p = Some d' /\ path d' = p.
Proof.
  intros P docsPath root prev r idx p d Hbuild Hin.
  apply built_snd in Hbuild. subst idx.
  assert (Hk : In p (map fst (documents (snd (buildIndex P docsPath root prev))))).
  { apply in_map_iff. exists (p, d). split; [reflexivity|exact Hin]. }
  destruct (built_getDocument _ _ _ _ _ Hk) as [d' Hd']. exists d'.
  split; [exact Hd'|].
  apply (map_get_in _ _ String.eqb String.eqb_eq) in Hd'.
  exact (proj1 (co_source _ _ _ _ (built_coherent P docsPath root prev) p d' Hd')).
Qed.

(** X19: on a built index, a [search_docs] call that succeeds replies
    with one result for each of the first [limit] paths of [search], in
    the order of [search]: no path is passed over, and each result
    carries the path it was found under. *)
Theorem searchDocs_returns_search_results :
  forall P docsPath root prev r idx query wantedCategory wantedTags limit
         results,
    buildIndex P docsPath root prev = (r, idx) ->
    DocsServer.searchDocs P idx query wantedCategory wantedTags limit
      = DocsServer.Done results ->
    query <> "" /\
    exists paths,
      search P idx query wantedCategory wantedTags = Ok paths /\
      map DocsServer.result_path results
      = slice0 (DocsServer.limitOr10 limit) paths.
Proof.
  intros P docsPath root prev r idx query wantedCategory wantedTags limit
    results Hbuild H.
  unfold DocsServer.searchDocs in H.
  destruct (String.eqb_spec query ""); [discriminate|]. split; [assumption|].
  destruct (search P idx query wantedCategory wantedTags) as [paths|e] eqn:Es;
    [|discriminate].
  exists paths. split; [reflexivity|]. inversion H. subst results. clear H.
  apply collect_paths. intros p Hp.
  destruct (slice0_firstn _ (DocsServer.limitOr10 limit) paths) as [k [Hk _]].
  rewrite Hk in Hp. apply firstn_incl in Hp.
  destruct (search_results_scored _ _ _ _ _ _ _ Es Hp) as [doc [Hin _]].
  exact (built_key_resolves _ _ _ _ _ _ _ _ Hbuild Hin).
Qed.

(** On the sample tree: [search_docs] for [auth] with limit 1. *)
Lemma searchDocs_returns_search_results_witness :
  "auth" <> "" /\
  exists paths,
    search Sample.platform Corpus.apiIndex "auth" None None = Ok paths /\
    map DocsServer.result_path
      (DocsServer.collect Corpus.apiIndex
         (fun doc => Some (DocsServer.extractExcerpt (content doc) "auth"))
         ["api/auth.md"])
    = slice0 (DocsServer.limitOr10 (Some 1%Z)) paths.
Proof.
  apply (@searchDocs_returns_search_results Sample.platform "/docs" Corpus.api
           emptyIndex (fst (Sample.build Corpus.api)) Corpus.apiIndex
           "auth" None None (Some 1%Z)).
  - vm_compute. reflexivity.
  - vm_compute. reflexivity.
Defined.

(** X20: after a successful build, a [get_related_docs] call that
    succeeds names the requested path as its source and replies with one
    result for each path [getRelatedDocuments] returns, in that order;
    every such path is the key of a stored document. *)
Theorem getRelatedDocs_returns_related_documents :
  forall P docsPath root prev idx docPath limit source relatedResults,
    buildIndex P docsPath root prev = (Ok tt, idx) ->
    DocsServer.getRelatedDocs idx docPath limit
      = DocsServer.Done (source, relatedResults) ->
    source = docPath /\
    getRelatedDocuments idx docPath (DocsServer.limitOr10 limit)
      = Ok (map DocsServer.result_path relatedResults) /\
    forall x, In x (map DocsServer.result_path relatedResults) ->
      exists d, getDocument idx x = Some d.
Proof.
  intros P docsPath root prev idx docPath limit source relatedResults Hbuild H.
  unfold DocsServer.getRelatedDocs in H.
  destruct (String.eqb_spec docPath ""); [discriminate|].
  destruct (getDocument idx docPath) as [doc|] eqn:Hdoc; [|discriminate].
  destruct (getRelatedDocuments idx docPath (DocsServer.limitOr10 limit))
    as [paths|e] eqn:Er; [|discriminate].
  inversion H. subst source relatedResults. clear H.
  assert (Hres : forall x, In x paths ->
            exists d, getDocument idx x = Some d /\ path d = x).
  { intros x Hx. exact (related_paths_resolve _ _ _ _ _ _ _ _ _ _
                          Hbuild Hdoc Er Hx). }
  rewrite (collect_paths idx _ paths Hres). split; [|split].
  - pose proof (map_get_in _ _ String.eqb String.eqb_eq _ _ _ Hdoc) as Hin.
    destruct (built_key_resolves _ _ _ _ _ _ _ _ Hbuild Hin) as [d' [Hd' Hp]].
    unfold getDocument in *. rewrite Hdoc in Hd'. inversion Hd'. subst d'.
    exact Hp.
  - reflexivity.
  - intros x Hx. destruct (Hres x Hx) as [d [Hd _]]. exists d. exact Hd.
Qed.

(** On the sample tree: [get_related_docs] for [api/auth.md]. *)
Lemma getRelatedDocs_returns_related_documents_witness :
  "api/auth.md" = "api/auth.md" /\
  getRelatedDocuments Corpus.apiIndex "api/auth.md" (DocsServer.limitOr10 None)
    = Ok (map DocsServer.result_path
            (DocsServer.collect Corpus.apiIndex (fun _ => None)
               ["guides/login.md"])) /\
  forall x,
    In x (map DocsServer.result_path
            (DocsServer.collect Corpus.apiIndex (fun _ => None)
               ["guides/login.md"])) ->
    exists d, getDocument Corpus.apiIndex x = Some d.
Proof.
  apply (@getRelatedDocs_returns_related_documents Sample.platform "/docs"
           Corpus.api emptyIndex Corpus.apiIndex "api/auth.md" None).
  - vm_compute. reflexivity.
  - vm_compute. reflexivity.
Defined.

(** ** When the build succeeds *)




Section TypedFrontmatter.

Variable P : Platform.
Variable docsPath : string.
Variable docs : list (string * Document).

Hypothesis typed_tags : forall p d, In (p, d) docs ->
  docTags d = JUndefined \/ docTags d = JNull \/
  exists items, docTags d = JArr items.

Hypothesis typed_related : forall p d, In (p, d) docs ->
  Js.truthy (related d) = false \/
  exists targets, related d = JArr (map JStr targets).




End TypedFrontmatter.



(** ** [buildIndex] starts from nothing *)


(** ** The metadata of a document *)

Section SpreadFacts.

Lemma prop_setProp_same : forall k v o, Js.prop k (Js.setProp k v o) = v.
Proof.
  intros k v o. induction o as [|[k' v'] o IH]; simpl.
  - rewrite String.eqb_refl. reflexivity.
  - destruct (k =? k') eqn:E; simpl; rewrite E; [reflexivity|exact IH].
Qed.

Lemma prop_setProp_other : forall k k1 v o,
  k <> k1 -> Js.prop k (Js.setProp k1 v o) = Js.prop k o.
Proof.
  intros k k1 v o Hne. induction o as [|[k' v'] o IH]; simpl.
  - destruct (String.eqb_spec k k1); [contradiction|reflexivity].
  - destruct (String.eqb_spec k1 k'); simpl.
    + subst k'. destruct (String.eqb_spec k k1); [contradiction|reflexivity].
    + destruct (k =? k'); [reflexivity|exact IH].
Qed.

Lemma prop_spread_absent : forall src o k,
  ~ In k (map fst src) -> Js.prop k (Js.spread o src) = Js.prop k o.
Proof.
  intros src. unfold Js.spread.
  induction src as [|[k1 v1] src IH]; intros o k Hout; simpl; [reflexivity|].
  rewrite IH.
  - apply prop_setProp_other. intro He. apply Hout. left. symmetry. exact He.
  - intro Hin. apply Hout. right. exact Hin.
Qed.

Lemma prop_spread_present : forall src o k,
  NoDup (map fst src) -> In k (map fst src) ->
  Js.prop k (Js.spread o src) = Js.prop k src.
Proof.
  intros src. unfold Js.spread.
  induction src as [|[k1 v1] src IH]; intros o k Hnd Hin; [contradiction|].
  simpl in *. inversion Hnd as [|? ? Hout Hnd']; subst.
  destruct (String.eqb_spec k k1).
  - subst k1.
    change (fold_left (fun acc kv => Js.setProp (fst kv) (snd kv) acc) src
              (Js.setProp k v1 o))
      with (Js.spread (Js.setProp k v1 o) src).
    rewrite prop_spread_absent; [apply prop_setProp_same|exact Hout].
  - destruct Hin as [He|Hin]; [symmetry in He; contradiction|].
    apply IH; assumption.
Qed.

End SpreadFacts.

(** X23: the frontmatter wins over the defaults.  Every key the
    frontmatter has is read from the metadata with the value the
    frontmatter gives it, also when that value is falsy: an empty
    [title], [category] or [summary] is kept and not replaced by the
    default. *)
Theorem buildMetadata_keeps_frontmatter :
  forall P docsPath filePath parsed k,
    NoDup (map fst (parsed_data parsed)) ->
    In k (map fst (parsed_data parsed)) ->
    Js.prop k (buildMetadata P docsPath filePath parsed)
    = Js.prop k (parsed_data parsed).
Proof.
  intros P docsPath filePath parsed k Hnd Hin. unfold buildMetadata.
  apply prop_spread_present; assumption.
Qed.

(** A frontmatter that says [title: ''] (an empty string). *)
Lemma buildMetadata_keeps_frontmatter_witness :
  Js.prop "title"
    (buildMetadata Sample.platform "/docs" "/docs/api/auth.md"
       (mkParsed [("title", JStr ""); ("draft", JBool true)] "Body."))
  = Js.prop "title" [("title", JStr ""); ("draft", JBool true)].
Proof.
  apply (@buildMetadata_keeps_frontmatter Sample.platform "/docs"
           "/docs/api/auth.md"
           (mkParsed [("title", JStr ""); ("draft", JBool true)] "Body.")
           "title").
  - simpl. repeat constructor; simpl; intuition discriminate.
  - simpl. left. reflexivity.
Defined.

(** X24: the defaults of the metadata.  A key the frontmatter does not
    have is read as: the title made of the file name, no tags, the
    category made of the path, no related documents, the first long
    paragraph of the content as summary. *)
Theorem buildMetadata_defaults :
  forall P docsPath filePath parsed,
    let keys := map fst (parsed_data parsed) in
    let md := buildMetadata P docsPath filePath parsed in
    (~ In "title" keys ->
     Js.prop "title" md = JStr (extractTitleFromPath P filePath)) /\
    (~ In "tags" keys -> Js.prop "tags" md = JArr []) /\
    (~ In "category" keys ->
     Js.prop "category" md = JStr (extractCategoryFromPath P docsPath filePath)) /\
    (~ In "related" keys -> Js.prop "related" md = JArr []) /\
    (~ In "summary" keys ->
     Js.prop "summary" md
     = JStr (extractFirstParagraph (parsed_content parsed))).
Proof.
  intros P docsPath filePath parsed keys md. subst keys md.
  unfold buildMetadata.
  assert (Hu : forall k, ~ In k (map fst (parsed_data parsed)) ->
                 Js.prop k (parsed_data parsed) = JUndefined).
  { intros k. induction (parsed_data parsed) as [|[k' v'] o IH]; simpl;
      [reflexivity|].
    intro Hout. destruct (String.eqb_spec k k').
    - exfalso. apply Hout. left. symmetry. assumption.
    - apply IH. intro Hin. apply Hout. right. exact Hin. }
  repeat split; intro Hout; rewrite (prop_spread_absent _ _ _ Hout);
    simpl; rewrite ?(Hu _ Hout); reflexivity.
Qed.

(** On a file without frontmatter. *)
Lemma buildMetadata_defaults_witness :
  let md := buildMetadata Sample.platform "/docs" "/docs/guides/getting-started.md"
              (mkParsed [] "A first paragraph that is long enough.") in
  Js.prop "title" md = JStr "Getting Started" /\
  Js.prop "tags" md = JArr [] /\
  Js.prop "category" md = JStr "guides" /\
  Js.prop "related" md = JArr [] /\
  Js.prop "summary" md = JStr "A first paragraph that is long enough.".
Proof.
  intro md.
  destruct (buildMetadata_defaults Sample.platform "/docs"
              "/docs/guides/getting-started.md"
              (mkParsed [] "A first paragraph that is long enough."))
    as [H1 [H2 [H3 [H4 H5]]]].
  split; [apply H1; simpl; tauto|].
  split; [apply H2; simpl; tauto|].
  split; [apply H3; simpl; tauto|].
  split; [apply H4; simpl; tauto|apply H5; simpl; tauto].
Defined.

(** ** Summaries and excerpts *)

Lemma length_take : forall n s,
  String.length (Str.take n s) = Nat.min n (String.length s).
Proof.
  unfold Str.take. intros n. induction n as [|n IH]; intro s.
  - destruct s; reflexivity.
  - destruct s as [|c s]; [reflexivity|]. simpl. rewrite IH. reflexivity.
Qed.

Lemma length_substring_le : forall s n m,
  (String.length (substring n m s) <= m)%nat.
Proof.
  intros s. induction s as [|c s IH]; intros n m.
  - destruct n, m; simpl; lia.
  - destruct n as [|n].
    + destruct m as [|m]; simpl; [lia|]. specialize (IH 0%nat m). lia.
    + simpl. apply IH.
Qed.

Lemma length_app : forall a b : string,
  String.length (a ++ b) = (String.length a + String.length b)%nat.
Proof.
  intros a b. induction a as [|c a IH]; simpl; [reflexivity|].
  rewrite IH. reflexivity.
Qed.


(** X26: an excerpt is never longer than the query plus 156 characters:
    75 characters of context on either side of the match, or the first
    150 characters when there is no match, and the ellipses. *)
Theorem extractExcerpt_length :
  forall content query,
    (String.length (DocsServer.extractExcerpt content query)
     <= String.length query + 156)%nat.
Proof.
  intros content query. unfold DocsServer.extractExcerpt.
  destruct (index 0 (Str.toLowerCase query) (Str.toLowerCase content))
    as [i|].
  - set (stop := Nat.min (String.length content)
                   (i + String.length query + 75)).
    assert (Hstop : (stop <= i + String.length query + 75)%nat)
      by (unfold stop; lia).
    pose proof (length_substring_le content (i - 75) (stop - (i - 75))) as Hs.
    set (excerpt := substring (i - 75) (stop - (i - 75)) content) in *.
    destruct (0 <? i - 75)%nat; destruct (stop <? String.length content)%nat;
      rewrite ?length_app; rewrite ?length_app;
      change (String.length "...") with 3%nat; lia.
  - rewrite length_app, length_take.
    change (String.length "...") with 3%nat. lia.
Qed.

(** ** The keyword index holds nothing else *)


